(** * A shallow embedding of [debounce]

    The model follows the repository's implementation of the debounce
    exercise posed in docs/3.advanced/debounce.ts.

    The TypeScript function [debounce(fn, wait, options)] closes over six
    mutable variables and talks to two host facilities, [Date.now()] and
    [setTimeout]/[clearTimeout].  Here the closed-over variables and the
    host's clock and timer queue are the fields of one record, [world];
    every inner function of the closure is a computation in a small
    state-and-exception monad over [world]; the wrapped action [fn] is an
    opaque transformer of an environment that may return or throw.

    Modelling conventions.
    - Times are integers (milliseconds), [lastInvokeTime = 0] is the
      source's sentinel.
    - [null] / [undefined] are [None]; an argument array is always truthy,
      so [lastArgs] is truthy exactly when it is [Some _].
    - Every operation runs at one instant: the clock does not move while
      an operation (and the action it may run) executes.
    - The wrapped action does not call back into the controller.
    - [executions] is a ghost log: one entry per application of [fn]. *)

From Stdlib Require Import String ZArith List Bool Lia.
Import ListNotations.
Open Scope Z_scope.

Declare Scope js_scope.
Delimit Scope js_scope with js.

Section Debounce.

Context {This Args R Exn Env : Type}.

(** How a JavaScript call completes: it returns a value or it throws. *)
Inductive completion (A : Type) : Type :=
| Normal (a : A)
| Throw (e : Exn).
Arguments Normal {A} a.
Arguments Throw {A} e.

(** One application [fn.apply(this, args)], as recorded in the ghost log. *)
Record execution : Type := mkExecution {
  exec_time : Z;
  exec_this : option This;
  exec_args : option Args
}.

(** The wrapped action. *)
Variable fn : option This -> option Args -> Env -> Env * completion R.

(** ** The [options] argument and its destructuring *)

Record Options : Type := mkOptions {
  opt_leading : option bool;
  opt_trailing : option bool;
  opt_maxWait : option Z
}.

Record config : Type := mkConfig {
  wait : Z;
  leading : bool;
  trailing : bool;
  maxWait : option Z
}.

Definition or_default {A} (d : A) (o : option A) : A :=
  match o with Some a => a | None => d end.

(** [const { leading = false, trailing = true, maxWait } = options || {}] *)
Definition configure (wait : Z) (options : option Options) : config :=
  let o := or_default (mkOptions None None None) options in
  {| wait := wait;
     leading := or_default false (opt_leading o);
     trailing := or_default true (opt_trailing o);
     maxWait := opt_maxWait o |}.

(** ** The state *)

Record world : Type := mkWorld {
  (* variables of the closure *)
  timer : option nat;
  lastArgs : option Args;
  lastThis : option This;
  lastCallTime : option Z;
  lastInvokeTime : Z;
  result : option R;
  (* the host *)
  clock : Z;
  next_handle : nat;
  tasks : list (nat * Z);
  (* the action's environment and the ghost log *)
  env : Env;
  executions : list execution
}.

(** Assignments to one variable.  They match on the record so that a
    chain of assignments evaluates from the inside out. *)
Definition set_timer (x : option nat) (w : world) : world :=
  let '(mkWorld _ la lt lc li rs ck nh tk en ex) := w in
  mkWorld x la lt lc li rs ck nh tk en ex.
Definition set_lastArgs (x : option Args) (w : world) : world :=
  let '(mkWorld tm _ lt lc li rs ck nh tk en ex) := w in
  mkWorld tm x lt lc li rs ck nh tk en ex.
Definition set_lastThis (x : option This) (w : world) : world :=
  let '(mkWorld tm la _ lc li rs ck nh tk en ex) := w in
  mkWorld tm la x lc li rs ck nh tk en ex.
Definition set_lastCallTime (x : option Z) (w : world) : world :=
  let '(mkWorld tm la lt _ li rs ck nh tk en ex) := w in
  mkWorld tm la lt x li rs ck nh tk en ex.
Definition set_lastInvokeTime (x : Z) (w : world) : world :=
  let '(mkWorld tm la lt lc _ rs ck nh tk en ex) := w in
  mkWorld tm la lt lc x rs ck nh tk en ex.
Definition set_result (x : option R) (w : world) : world :=
  let '(mkWorld tm la lt lc li _ ck nh tk en ex) := w in
  mkWorld tm la lt lc li x ck nh tk en ex.
Definition set_clock (x : Z) (w : world) : world :=
  let '(mkWorld tm la lt lc li rs _ nh tk en ex) := w in
  mkWorld tm la lt lc li rs x nh tk en ex.
Definition set_next_handle (x : nat) (w : world) : world :=
  let '(mkWorld tm la lt lc li rs ck _ tk en ex) := w in
  mkWorld tm la lt lc li rs ck x tk en ex.
Definition set_tasks (x : list (nat * Z)) (w : world) : world :=
  let '(mkWorld tm la lt lc li rs ck nh _ en ex) := w in
  mkWorld tm la lt lc li rs ck nh x en ex.
Definition set_env (x : Env) (w : world) : world :=
  let '(mkWorld tm la lt lc li rs ck nh tk _ ex) := w in
  mkWorld tm la lt lc li rs ck nh tk x ex.
Definition set_executions (x : list execution) (w : world) : world :=
  let '(mkWorld tm la lt lc li rs ck nh tk en _) := w in
  mkWorld tm la lt lc li rs ck nh tk en x.

(** ** The monad: state that survives a throw *)

Definition M (A : Type) : Type := world -> world * completion A.

Definition ret {A} (a : A) : M A := fun w => (w, Normal a).

Definition bind {A B} (m : M A) (k : A -> M B) : M B :=
  fun w =>
    match m w with
    | (w', Normal a) => k a w'
    | (w', Throw e) => (w', Throw e)
    end.

Definition get {A} (f : world -> A) : M A := fun w => (w, Normal (f w)).

Definition modify (f : world -> world) : M unit := fun w => (f w, Normal tt).

Notation "x <- m ;; k" := (bind m (fun x => k))
  (at level 61, m at next level, right associativity) : js_scope.
Notation "m ;; k" := (bind m (fun _ => k))
  (at level 61, right associativity) : js_scope.
Local Open Scope js_scope.

(** ** Host facilities *)

(** [Date.now()] *)
Definition Date_now : M Z := get clock.

(** [setTimeout(callback, delay)]: a negative delay counts as zero; the
    task becomes due [delay] after the present instant.  Every callback
    this closure registers is [() => trailingEdge(Date.now())], so a task
    is its handle and its due time. *)
Definition setTimeout (delay : Z) : M nat :=
  fun w =>
    let h := next_handle w in
    (set_tasks (tasks w ++ [(h, clock w + Z.max 0 delay)])
               (set_next_handle (S h) w),
     Normal h).

Definition drop_task (h : nat) (l : list (nat * Z)) : list (nat * Z) :=
  filter (fun t => negb (Nat.eqb (fst t) h)) l.

(** [clearTimeout(handle)] *)
Definition clearTimeout (h : nat) : M unit :=
  modify (fun w => set_tasks (drop_task h (tasks w)) w).

(** [fn.apply(thisArg, args)] *)
Definition apply_fn (this : option This) (args : option Args) : M R :=
  fun w =>
    let '(e', c) := fn this args (env w) in
    (set_executions (executions w ++ [mkExecution (clock w) this args])
                    (set_env e' w),
     c).

(** ** The inner functions of the closure *)

Variable cfg : config.

Definition invokeFunc (time : Z) : M (option R) :=
  modify (set_lastInvokeTime time) ;;
  this <- get lastThis ;;
  args <- get lastArgs ;;
  r <- apply_fn this args ;;
  modify (set_result (Some r)) ;;
  modify (set_lastThis None) ;;
  modify (set_lastArgs None) ;;
  get result.

Definition startTimer (wait : Z) : M unit :=
  t <- get timer ;;
  match t with
  | Some h => clearTimeout h
  | None => ret tt
  end ;;
  h <- setTimeout wait ;;
  modify (set_timer (Some h)).

Definition shouldInvoke (time : Z) (w : world) : bool :=
  if lastInvokeTime w =? 0 then true
  else match maxWait cfg with
       | Some m => time - lastInvokeTime w >=? m
       | None => false
       end.

Definition is_some {A} (o : option A) : bool :=
  match o with Some _ => true | None => false end.

Definition trailingEdge (time : Z) : M (option R) :=
  modify (set_timer None) ;;
  args <- get lastArgs ;;
  if trailing cfg && is_some args then invokeFunc time
  else
    modify (set_lastThis None) ;;
    modify (set_lastArgs None) ;;
    get result.

Definition debounced (this : option This) (args : Args) : M (option R) :=
  now <- Date_now ;;
  isInvoking <- get (shouldInvoke now) ;;
  modify (set_lastArgs (Some args)) ;;
  modify (set_lastThis this) ;;
  modify (set_lastCallTime (Some now)) ;;
  t <- get timer ;;
  (if isInvoking then
     match t with
     | None =>
         (if leading cfg then _ <- invokeFunc now ;; ret tt else ret tt) ;;
         startTimer (wait cfg)
     | Some _ =>
         if is_some (maxWait cfg) then startTimer (wait cfg) else ret tt
     end
   else
     match t with
     | None => startTimer (wait cfg)
     | Some _ => ret tt
     end) ;;
  get result.

Definition cancel : M unit :=
  t <- get timer ;;
  match t with
  | Some h => clearTimeout h ;; modify (set_timer None)
  | None => ret tt
  end ;;
  modify (set_lastThis None) ;;
  modify (set_lastArgs None) ;;
  modify (set_lastInvokeTime 0).

Definition flush : M (option R) :=
  t <- get timer ;;
  match t with
  | Some h =>
      time <- Date_now ;;
      clearTimeout h ;;
      modify (set_timer None) ;;
      trailingEdge time
  | None => get result
  end.

(** ** The controller as a transition system *)

(** The state right after [debounce(fn, wait, options)] returns. *)
Definition initial (clock0 : Z) (env0 : Env) : world :=
  {| timer := None; lastArgs := None; lastThis := None;
     lastCallTime := None; lastInvokeTime := 0; result := None;
     clock := clock0; next_handle := O; tasks := [];
     env := env0; executions := [] |}.

Inductive event : Type :=
| Call (t : Z) (this : option This) (args : Args)
| TimerFires (t : Z) (h : nat)
| Cancel (t : Z)
| Flush (t : Z).

Definition event_time (e : event) : Z :=
  match e with
  | Call t _ _ | TimerFires t _ | Cancel t | Flush t => t
  end.

(** The clock never runs backwards. *)
Definition advance (t : Z) (w : world) : option world :=
  if clock w <=? t then Some (set_clock t w) else None.

(** The host runs a task only when it is in the queue and due. *)
Definition is_due (h : nat) (w : world) : bool :=
  existsb (fun t => Nat.eqb (fst t) h && (snd t <=? clock w)) (tasks w).

(** The callback given to [setTimeout]: [() => trailingEdge(Date.now())]. *)
Definition timer_callback : M (option R) :=
  now <- Date_now ;;
  trailingEdge now.

Definition step (w : world) (e : event) : option world :=
  match advance (event_time e) w with
  | None => None
  | Some w1 =>
      match e with
      | Call _ this args => Some (fst (debounced this args w1))
      | TimerFires _ h =>
          if is_due h w1
          then Some (fst (timer_callback
                            (set_tasks (drop_task h (tasks w1)) w1)))
          else None
      | Cancel _ => Some (fst (cancel w1))
      | Flush _ => Some (fst (flush w1))
      end
  end.

Fixpoint run (w : world) (evs : list event) : option world :=
  match evs with
  | [] => Some w
  | e :: evs' =>
      match step w e with
      | Some w' => run w' evs'
      | None => None
      end
  end.

(** The states a run passes through, one per event that could happen. *)
Fixpoint history (w : world) (evs : list event) : list world :=
  match evs with
  | [] => []
  | e :: evs' =>
      match step w e with
      | Some w' => w' :: history w' evs'
      | None => []
      end
  end.

End Debounce.

Arguments Normal {Exn A} a.
Arguments Throw {Exn A} e.

(** ** Vocabulary of the statements *)

Section Vocabulary.

Context {This Args R Env : Type}.
Implicit Types w : @world This Args R Env.

(** The closure's [timer] variable and the host's queue agree: the queue
    holds the task [timer] names, and nothing else. *)
Definition timer_inv w : Prop :=
  match timer w with
  | None => tasks w = []
  | Some h => exists d, tasks w = [(h, d)]
  end.

(** No window is open: no timer, nothing queued. *)
Definition idle w : Prop := timer w = None /\ tasks w = [].

(** What a proxy call always does: remember the arguments, the receiver
    and the time of the call (lines 110-112 of the source). *)
Definition note_call (t : Z) (this : option This) (args : Args) w :=
  set_lastCallTime (Some t)
    (set_lastThis this (set_lastArgs (Some args) (set_clock t w))).

(** A proxy call as data: its time, receiver and arguments. *)
Definition call : Type := Z * option This * Args.

Definition call_time (c : call) : Z := fst (fst c).
Definition call_this (c : call) : option This := snd (fst c).
Definition call_args (c : call) : Args := snd c.

Definition call_event (c : call) : event :=
  Call (call_time c) (call_this c) (call_args c).

(** Times that never decrease, starting from [from]. *)
Fixpoint ascending (from : Z) (ts : list Z) : Prop :=
  match ts with
  | [] => True
  | t :: ts' => from <= t /\ ascending t ts'
  end.

Definition is_cancel (e : @event This Args) : bool :=
  match e with Cancel _ => true | _ => false end.

(** The state after [startTimer(pending, delay)] when no timer was set. *)
Definition armed (delay : Z) w :=
  set_timer (Some (next_handle w))
    (set_tasks (tasks w ++ [(next_handle w, clock w + Z.max 0 delay)])
       (set_next_handle (S (next_handle w)) w)).

(** The state in which [invokeFunc(time)] has applied the action to the
    pending receiver and arguments, whatever the action then did: lines
    50 and 51 up to the call, with the action's effect [env'] on its
    environment. *)
Definition attempted (time : Z) (env' : Env) w :=
  set_executions
    (executions w ++ [mkExecution (clock w) (lastThis w) (lastArgs w)])
    (set_env env' (set_lastInvokeTime time w)).

(** The rest of [invokeFunc] once the action has returned [r]: store the
    result and drop the pending receiver and arguments. *)
Definition consumed (r : R) w :=
  set_lastArgs None (set_lastThis None (set_result (Some r) w)).


(** The execution [x] used the receiver and the arguments of one of the
    proxy calls among [evs]. *)
Definition from_call_in (evs : list (@event This Args))
    (x : @execution This Args) : Prop :=
  exists t this args,
    In (Call t this args) evs /\
    exec_this x = this /\ exec_args x = Some args.

(** The pending receiver and arguments, if a timer could still run them,
    are those of one of the proxy calls among [evs]. *)
Definition pending_from (evs : list (@event This Args)) w : Prop :=
  timer w = None \/ lastArgs w = None \/
  exists t this args,
    In (Call t this args) evs /\
    lastThis w = this /\ lastArgs w = Some args.

Definition is_call (e : @event This Args) : bool :=
  match e with Call _ _ _ => true | _ => false end.

(** How many of the events are proxy calls. *)
Definition count_calls (evs : list (@event This Args)) : nat :=
  List.length (filter is_call evs).

(** The most recent proxy call among the events, [acc] if there is none. *)
Fixpoint latest_call (acc : option call) (evs : list (@event This Args))
    : option call :=
  match evs with
  | [] => acc
  | Call t this args :: evs' => latest_call (Some (t, this, args)) evs'
  | _ :: evs' => latest_call acc evs'
  end.

(** The closure's record of the last call agrees with the most recent
    proxy call [c]: [lastCallTime] is its time, and the pending arguments
    and receiver, when there are any, are its arguments and receiver. *)
Definition records_call (c : option call) w : Prop :=
  lastCallTime w = option_map call_time c /\
  (lastArgs w = None -> lastThis w = None) /\
  (forall a, lastArgs w = Some a ->
     exists c0, c = Some c0 /\ a = call_args c0 /\ lastThis w = call_this c0).

(** One more execution is owed when a timer is outstanding and arguments
    are pending. *)
Definition owed w : nat :=
  if is_some (timer w) && is_some (lastArgs w) then 1%nat else 0%nat.

(** The task of the host, if any, is due at most [delay] from now. *)
Definition due_within (delay : Z) w : Prop :=
  forall h d, tasks w = [(h, d)] -> d <= clock w + Z.max 0 delay.

End Vocabulary.

(** ** Concrete instances used to exercise the model *)

Module Demo.

(** An action that records the name it is given and returns how many
    names it has recorded so far. *)
Definition record_name (_ : option unit) (args : option string)
    (names : list string) : list string * completion (Exn := unit) nat :=
  let names' := names ++ [or_default EmptyString args] in
  (names', Normal (List.length names')).

(** An action that always throws. *)
Definition failing (_ : option unit) (_ : option string)
    (names : list string) : list string * completion (Exn := unit) nat :=
  (names, Throw tt).

(** The configuration of the example at the end of the source file:
    [debounce(greet, 2000, { leading: true, trailing: true, maxWait: 5000 })]. *)
Definition example_cfg : config :=
  configure 2000 (Some (mkOptions (Some true) (Some true) (Some 5000))).


(** [debounce(fn, 2000, { leading: true })]. *)
Definition leading_cfg : config :=
  configure 2000 (Some (mkOptions (Some true) None None)).

(** [debounce(fn, 2000, { leading: true, maxWait: 3000 })]. *)
Definition maxwait_cfg : config :=
  configure 2000 (Some (mkOptions (Some true) None (Some 3000))).

Definition start : @world unit string nat (list string) := initial 0 [].

Definition me : option unit := Some tt.

(** One call with [leading] set, then the timer of that window. *)
Definition single_call : list (@event unit string) :=
  [Call 1000 me "Tom"; TimerFires 3000 0]%string.

(** A burst of three calls within one window, then the timer. *)
Definition burst : list (@call unit string) :=
  [(1500, me, "Jerry"); (2900, me, "Lucy")]%string.

(** A caller that never pauses for [wait = 2000]: the gaps between its
    calls are 1800, 1900, 1300, 1900 and 1900. *)
Definition busy_caller : list (@event unit string) :=
  [Call 1000 me "Tom"; Call 2800 me "Jerry"; TimerFires 3000 0;
   Call 4700 me "Lucy"; Call 6000 me "Alice"; Call 7900 me "Bob";
   Call 9800 me "Eve"]%string.

(** The example at the end of the source file, with the controller
    constructed at clock time 50000 and every timer firing when due. *)
Definition source_example : list (@event unit string) :=
  [Call 50000 me "Tom"; Call 51000 me "Jerry"; TimerFires 52000 0;
   Call 53000 me "Lucy"; TimerFires 55000 1; Call 55200 me "Alice";
   Flush 56000; Cancel 57000]%string.

(** The state in which a first call at time 1000 has executed on the
    leading edge and a second call at time 1500 is pending. *)
Definition pending : @world unit string nat (list string) :=
  fst (debounced record_name leading_cfg me "Jerry"%string
         (set_clock 1500
            (fst (debounced record_name leading_cfg me "Tom"%string
                    (set_clock 1000 start))))).

(** [debounce(fn, 2000, { trailing: false })]: neither edge. *)
Definition silent_cfg : config :=
  configure 2000 (Some (mkOptions None (Some false) None)).

(** [debounce(fn, 2000, { leading: true, trailing: false })]. *)
Definition leading_only_cfg : config :=
  configure 2000 (Some (mkOptions (Some true) (Some false) None)).

(** [debounce(fn, 2000, { maxWait: 5000 })]. *)
Definition maxwait_only_cfg : config :=
  configure 2000 (Some (mkOptions None None (Some 5000))).

(** A new controller with [maxWait] and without [leading], after a first
    call at time 1000: a timer is outstanding and nothing was executed. *)
Definition waiting : @world unit string nat (list string) :=
  fst (debounced record_name maxwait_only_cfg me "Tom"%string
         (set_clock 1000 start)).

(** Calls, a timer firing and a [flush()]. *)
Definition mixed_events : list (@event unit string) :=
  [Call 1000 me "Tom"; Call 1500 me "Jerry"; TimerFires 3000 0;
   Call 3200 me "Lucy"; Flush 3500]%string.

End Demo.

(** ** Properties *)

Section Properties.

Context {This Args R Exn Env : Type}.
Variable fn : option This -> option Args -> Env -> Env * completion (Exn := Exn) R.
Variable cfg : config.
Implicit Types w : @world This Args R Env.
Implicit Types e : @event This Args.

Ltac unfold_js :=
  unfold step, advance, timer_callback, flush, cancel, debounced,
    trailingEdge, invokeFunc, startTimer, clearTimeout, setTimeout,
    apply_fn, Date_now, bind, get, modify, ret, note_call, armed,
    attempted, consumed in *.

(** Split on the next test the code makes. *)
Ltac js_case :=
  match goal with
  | |- context [if ?x then _ else _] => destruct x eqn:?
  | |- context [match ?x with _ => _ end] => destruct x eqn:?
  end; cbn in *.

Ltac js_split :=
  repeat (cbn in *;
          match goal with
          | |- context [shouldInvoke ?c ?t ?w] =>
              destruct (shouldInvoke c t w) eqn:?
          | |- context [leading ?c] => destruct (leading c) eqn:?
          | |- context [trailing ?c] => destruct (trailing c) eqn:?
          | |- context [maxWait ?c] => destruct (maxWait c) eqn:?
          | |- context [fn ?a ?b ?c] =>
              destruct (fn a b c) as [? [? | ?]] eqn:?
          end);
  cbn in *.

Lemma drop_task_single h d : drop_task h [(h, d)] = [].
Proof. unfold drop_task; cbn. now rewrite Nat.eqb_refl. Qed.

(** *** What each operation does, case by case *)

(** A call that finds a timer and is not forced. *)
Lemma debounced_unforced_pending w this args h :
  timer w = Some h -> shouldInvoke cfg (clock w) w = false ->
  debounced fn cfg this args w =
    (note_call (clock w) this args w, Normal (result w)).
Proof.
  intros Ht Hs. destruct w; cbn in *; subst.
  unfold_js; cbn. unfold shouldInvoke in *; cbn in *. now rewrite Hs.
Qed.

(** A call that finds a timer when no [maxWait] is configured. *)
Lemma debounced_pending_no_maxWait w this args h :
  timer w = Some h -> maxWait cfg = None ->
  debounced fn cfg this args w =
    (note_call (clock w) this args w, Normal (result w)).
Proof.
  intros Ht Hm. destruct w; cbn in *; subst.
  unfold_js; cbn. rewrite Hm; cbn. now js_case.
Qed.

(** A forced call that finds a timer, with [maxWait] configured: the timer
    is replaced and nothing is executed. *)
Lemma debounced_forced_pending w this args h m :
  timer w = Some h -> maxWait cfg = Some m ->
  shouldInvoke cfg (clock w) w = true ->
  debounced fn cfg this args w =
    (armed (wait cfg) (set_tasks (drop_task h (tasks w))
              (note_call (clock w) this args w)),
     Normal (result w)).
Proof.
  intros Ht Hm Hs. destruct w; cbn in *; subst.
  unfold_js; cbn. unfold shouldInvoke in *; cbn in *.
  rewrite Hs, Hm. reflexivity.
Qed.

(** A call that finds no timer and does not run the action. *)
Lemma debounced_start w this args :
  timer w = None ->
  shouldInvoke cfg (clock w) w && leading cfg = false ->
  debounced fn cfg this args w =
    (armed (wait cfg) (note_call (clock w) this args w), Normal (result w)).
Proof.
  intros Ht Hs. destruct w; cbn in *; subst.
  unfold_js; cbn. unfold shouldInvoke in *; cbn in *.
  repeat js_case; try reflexivity; discriminate.
Qed.

(** [invokeFunc]: the action is applied to the pending receiver and
    arguments; only when it returns are the result stored and the pending
    data dropped. *)
Lemma invokeFunc_spec time w :
  invokeFunc fn time w =
    let out := fn (lastThis w) (lastArgs w) (env w) in
    match snd out with
    | Normal r => (consumed r (attempted time (fst out) w), Normal (Some r))
    | Throw x => (attempted time (fst out) w, Throw x)
    end.
Proof.
  destruct w; unfold_js; cbn.
  destruct (fn _ _ _) as [env' [r | x]]; reflexivity.
Qed.

Lemma trailingEdge_spec time w :
  trailingEdge fn cfg time w =
    if trailing cfg && is_some (lastArgs w)
    then invokeFunc fn time (set_timer None w)
    else (set_lastArgs None (set_lastThis None (set_timer None w)),
          Normal (result w)).
Proof.
  destruct w; unfold trailingEdge, bind, get, modify; cbn.
  destruct (trailing cfg && is_some _); reflexivity.
Qed.

(** The leading edge: a forced call that finds no timer, [leading] set. *)
Lemma debounced_leading w this args :
  timer w = None -> shouldInvoke cfg (clock w) w = true ->
  leading cfg = true ->
  debounced fn cfg this args w =
    let out := fn this (Some args) (env w) in
    let w1 := attempted (clock w) (fst out) (note_call (clock w) this args w) in
    match snd out with
    | Normal r => (armed (wait cfg) (consumed r w1), Normal (Some r))
    | Throw x => (w1, Throw x)
    end.
Proof.
  intros Ht Hs Hl. destruct w; cbn in *; subst.
  unfold_js; cbn. unfold shouldInvoke in *; cbn in *. rewrite Hs, Hl; cbn.
  destruct (fn _ _ _) as [env' [r | x]]; reflexivity.
Qed.

Lemma cancel_spec w :
  cancel w =
    (set_lastInvokeTime 0
       (set_lastArgs None
          (set_lastThis None
             match timer w with
             | Some h => set_timer None (set_tasks (drop_task h (tasks w)) w)
             | None => w
             end)),
     Normal (Exn := Exn) tt).
Proof. destruct w as [[h |] ? ? ? ? ? ? ? ? ? ?]; reflexivity. Qed.

Lemma flush_spec w :
  flush fn cfg w =
    match timer w with
    | Some h =>
        trailingEdge fn cfg (clock w)
          (set_timer None (set_tasks (drop_task h (tasks w)) w))
    | None => (w, Normal (result w))
    end.
Proof. destruct w as [[h |] ? ? ? ? ? ? ? ? ? ?]; reflexivity. Qed.

(** *** Steps *)

Lemma step_Call w t this args :
  clock w <= t ->
  step fn cfg w (Call t this args) =
    Some (fst (debounced fn cfg this args (set_clock t w))).
Proof.
  intros H. unfold step, advance; cbn.
  now rewrite (proj2 (Z.leb_le _ _) H).
Qed.

Lemma step_clock w e w' :
  step fn cfg w e = Some w' ->
  clock w <= event_time e /\ clock w' = event_time e.
Proof.
  intros Hstep. destruct w as [tm la lt lc li rs ck nh tk en ex].
  unfold step, advance in Hstep; cbn in *.
  destruct (Z.leb_spec ck (event_time e)); [ | discriminate ].
  split; [ assumption | ].
  destruct e; cbn in *.
  - injection Hstep as <-. unfold_js. js_split; destruct tm; js_split; reflexivity.
  - destruct (existsb _ _); [ | discriminate ].
    injection Hstep as <-. unfold_js. js_split; destruct la; js_split; reflexivity.
  - injection Hstep as <-. unfold_js. destruct tm; reflexivity.
  - injection Hstep as <-. unfold_js. destruct tm; js_split; try destruct la; js_split; reflexivity.
Qed.

(** *** The timer variable and the host's queue stay in step *)

Lemma step_timer_inv w e w' :
  timer_inv w -> step fn cfg w e = Some w' -> timer_inv w'.
Proof.
  unfold timer_inv. intros Hinv Hstep.
  destruct w as [tm la lt lc li rs ck nh tk en ex].
  unfold step, advance in Hstep; cbn in *.
  destruct (ck <=? event_time e); [ | discriminate ].
  destruct e; cbn in *.
  - injection Hstep as <-. unfold_js.
    destruct tm as [h0 |]; [ destruct Hinv as [d ->] | subst tk ];
      js_split; rewrite ?Nat.eqb_refl; cbn; eauto.
  - destruct tm as [h0 |]; [ destruct Hinv as [d ->] | subst tk ];
      cbn in *; [ | discriminate ].
    destruct (Nat.eqb_spec h0 h); cbn in *; [ subst h0 | discriminate ].
    destruct (d <=? t); cbn in *; [ | discriminate ].
    injection Hstep as <-. unfold_js.
    js_split; destruct la; js_split; reflexivity.
  - injection Hstep as <-. unfold_js.
    destruct tm as [h0 |]; [ destruct Hinv as [d ->] | subst tk ];
      cbn; rewrite ?Nat.eqb_refl; reflexivity.
  - injection Hstep as <-. unfold_js.
    destruct tm as [h0 |]; [ destruct Hinv as [d ->] | subst tk ];
      js_split; rewrite ?Nat.eqb_refl; cbn; try destruct la;
      js_split; reflexivity.
Qed.

Lemma run_timer_inv evs : forall w w',
  timer_inv w -> run fn cfg w evs = Some w' -> timer_inv w'.
Proof.
  induction evs as [| e evs IH]; cbn; intros w w' Hinv Hrun.
  - now injection Hrun as <-.
  - destruct (step fn cfg w e) as [w1 |] eqn:Hstep; [ | discriminate ].
    eapply IH; [ eapply step_timer_inv | ]; eassumption.
Qed.

Lemma initial_timer_inv clock0 (env0 : Env) :
  timer_inv (initial (This := This) (Args := Args) (R := R) clock0 env0).
Proof. reflexivity. Qed.

Lemma timer_inv_length w : timer_inv w -> (List.length (tasks w) <= 1)%nat.
Proof.
  unfold timer_inv. destruct (timer w) as [h |].
  - intros [d ->]. cbn. lia.
  - intros ->. cbn. lia.
Qed.

(** *** What a step may do to the log and to [lastInvokeTime] *)

Lemma step_effect w e w' :
  step fn cfg w e = Some w' ->
  (executions w' = executions w /\
   (lastInvokeTime w' = lastInvokeTime w \/
    is_cancel e = true /\ lastInvokeTime w' = 0)) \/
  (exists this args,
      executions w' =
        executions w ++ [mkExecution (event_time e) this args] /\
      lastInvokeTime w' = event_time e /\ is_cancel e = false).
Proof.
  intros Hstep.
  destruct w as [tm la lt lc li rs ck nh tk en ex].
  unfold step, advance in Hstep; cbn in *.
  destruct (ck <=? event_time e); [ | discriminate ].
  destruct e; cbn in *.
  - injection Hstep as <-. unfold_js.
    destruct tm as [h0 |]; js_split; eauto 8.
  - destruct (existsb _ _); [ | discriminate ].
    injection Hstep as <-. unfold_js.
    js_split; destruct la; js_split; eauto 8.
  - injection Hstep as <-. unfold_js.
    destruct tm as [h0 |]; cbn; eauto 8.
  - injection Hstep as <-. unfold_js.
    destruct tm as [h0 |]; js_split; try destruct la; js_split; eauto 8.
Qed.

Lemma run_app evs1 : forall evs2 w,
  run fn cfg w (evs1 ++ evs2) =
    match run fn cfg w evs1 with
    | Some w1 => run fn cfg w1 evs2
    | None => None
    end.
Proof.
  induction evs1 as [| e evs1 IH]; cbn; intros evs2 w; [ reflexivity | ].
  destruct (step fn cfg w e); [ apply IH | reflexivity ].
Qed.

(** The log only ever grows at its end. *)
Lemma run_executions_grow evs : forall w w',
  run fn cfg w evs = Some w' ->
  exists new, executions w' = executions w ++ new.
Proof.
  induction evs as [| e evs IH]; cbn; intros w w' Hrun.
  - injection Hrun as <-. exists []. now rewrite app_nil_r.
  - destruct (step fn cfg w e) as [w1 |] eqn:Hstep; [ | discriminate ].
    destruct (IH _ _ Hrun) as [new Hnew].
    destruct (step_effect _ _ _ Hstep) as [[Hex _] | (this & args & Hex & _)];
      rewrite Hnew, Hex.
    + now exists new.
    + rewrite <- app_assoc. eexists; reflexivity.
Qed.

Lemma app_eq_self {A} (l new : list A) : l ++ new = l -> new = [].
Proof.
  intros H. apply (f_equal (@List.length A)) in H.
  rewrite length_app in H. destruct new; [ reflexivity | cbn in H; lia ].
Qed.

(** While every execution is dated 0, a [lastInvokeTime] of 0 stays 0. *)
Lemma run_zero_sentinel evs : forall w w' new,
  lastInvokeTime w = 0 ->
  run fn cfg w evs = Some w' ->
  executions w' = executions w ++ new ->
  Forall (fun x => exec_time x = 0) new ->
  lastInvokeTime w' = 0.
Proof.
  induction evs as [| e evs IH]; cbn; intros w w' new Hli Hrun Hex Hzero.
  - now injection Hrun as <-.
  - destruct (step fn cfg w e) as [w1 |] eqn:Hstep; [ | discriminate ].
    destruct (run_executions_grow _ _ _ Hrun) as [new1 Hnew1].
    destruct (step_effect _ _ _ Hstep)
      as [[Hex1 Hli1] | (this & args & Hex1 & Hli1 & _)].
    + rewrite Hnew1, Hex1 in Hex. apply app_inv_head in Hex. subst new1.
      apply (IH w1 w' new); try assumption.
      destruct Hli1 as [-> | [_ ->]]; [ assumption | reflexivity ].
    + rewrite Hnew1, Hex1, <- app_assoc in Hex. apply app_inv_head in Hex.
      subst new. cbn in Hzero. inversion Hzero as [| ? ? Hx Hrest]; subst.
      cbn in Hx. apply (IH w1 w' new1); try assumption. congruence.
Qed.

(** From a start at a non-negative time, [lastInvokeTime] stays between
    the sentinel and the clock. *)
Lemma step_lastInvokeTime_bounds w e w' :
  0 <= lastInvokeTime w <= clock w ->
  step fn cfg w e = Some w' ->
  0 <= lastInvokeTime w' <= clock w'.
Proof.
  intros Hb Hstep.
  destruct (step_clock _ _ _ Hstep) as [Hle Hck].
  destruct (step_effect _ _ _ Hstep)
    as [[_ [Hli | [_ Hli]]] | (this & args & _ & Hli & _)]; lia.
Qed.

Lemma run_lastInvokeTime_bounds evs : forall w w',
  0 <= lastInvokeTime w <= clock w ->
  run fn cfg w evs = Some w' ->
  0 <= lastInvokeTime w' <= clock w'.
Proof.
  induction evs as [| e evs IH]; cbn; intros w w' Hb Hrun.
  - now injection Hrun as <-.
  - destruct (step fn cfg w e) as [w1 |] eqn:Hstep; [ | discriminate ].
    eapply IH; [ eapply step_lastInvokeTime_bounds | ]; eassumption.
Qed.

(** *** The claims *)

(** C6.  In every state the controller can reach from its construction,
    by any sequence of proxy calls, timer firings, [cancel()] and
    [flush()], the host holds at most one deferred task of this
    controller, and it is the one the [timer] variable names. *)
Theorem C6_at_most_one_timer :
  forall clock0 (env0 : Env) evs w,
    run fn cfg (initial clock0 env0) evs = Some w ->
    (List.length (tasks w) <= 1)%nat /\ timer_inv w.
Proof.
  intros clock0 env0 evs w Hrun.
  assert (Hinv : timer_inv w)
    by (eapply run_timer_inv; [ apply initial_timer_inv | eassumption ]).
  split; [ now apply timer_inv_length | assumption ].
Qed.

(** C7 (amended).  Starting from a controller constructed at a
    non-negative time, a proxy call, a timer firing and [flush()] never
    move [lastInvokeTime] to a smaller value; [cancel()] is the exception:
    it resets [lastInvokeTime] to the sentinel 0, below or equal to the
    value it had. *)
Theorem C7_lastInvokeTime_monotone_except_cancel :
  forall clock0 (env0 : Env) evs w e w',
    0 <= clock0 ->
    run fn cfg (initial clock0 env0) evs = Some w ->
    step fn cfg w e = Some w' ->
    (is_cancel e = false -> lastInvokeTime w <= lastInvokeTime w') /\
    (is_cancel e = true ->
     lastInvokeTime w' = 0 /\ lastInvokeTime w' <= lastInvokeTime w).
Proof.
  intros clock0 env0 evs w e w' H0 Hrun Hstep.
  assert (Hb : 0 <= lastInvokeTime w <= clock w).
  { eapply run_lastInvokeTime_bounds; [ | eassumption ]. cbn. lia. }
  destruct (step_clock _ _ _ Hstep) as [Hle Hck].
  destruct (step_effect _ _ _ Hstep)
    as [[_ [Hli | [Hc Hli]]] | (this & args & _ & Hli & Hc)];
    split; intros Hcancel; try congruence; try lia.
  destruct e; try discriminate. cbn in *.
  unfold step, advance in Hstep.
  destruct w; cbn in *. destruct (_ <=? _); [ | discriminate ].
  injection Hstep as <-. unfold_js. destruct timer0; cbn; lia.
Qed.

(** C8.  A proxy call that finds a deferred task outstanding and is not
    forced ([lastInvokeTime] is past the sentinel and the [maxWait] bound,
    if there is one, is not reached) executes nothing and leaves the timer
    and the host's queue as they are: it only records its arguments, its
    receiver and its time, and returns the stored result. *)
Theorem C8_unforced_call_only_records :
  forall w t this args h,
    timer w = Some h ->
    lastInvokeTime w <> 0 ->
    (forall m, maxWait cfg = Some m -> t - lastInvokeTime w < m) ->
    clock w <= t ->
    debounced fn cfg this args (set_clock t w) =
      (note_call t this args w, Normal (result w)) /\
    step fn cfg w (Call t this args) = Some (note_call t this args w) /\
    timer (note_call t this args w) = Some h /\
    tasks (note_call t this args w) = tasks w /\
    executions (note_call t this args w) = executions w /\
    lastInvokeTime (note_call t this args w) = lastInvokeTime w /\
    result (note_call t this args w) = result w /\
    lastArgs (note_call t this args w) = Some args /\
    lastThis (note_call t this args w) = this /\
    lastCallTime (note_call t this args w) = Some t.
Proof.
  intros w t this args h Ht Hli Hmax Hck.
  assert (Hd : debounced fn cfg this args (set_clock t w) =
               (note_call t this args w, Normal (result w))).
  { assert (Hs : shouldInvoke cfg (clock (set_clock t w)) (set_clock t w)
                 = false).
    { destruct w; cbn in *. unfold shouldInvoke; cbn.
      destruct (Z.eqb_spec lastInvokeTime0 0); [ contradiction | ].
      destruct (maxWait cfg) as [m |]; [ | reflexivity ].
      specialize (Hmax m eq_refl). rewrite Z.geb_leb. apply Z.leb_gt. lia. }
    rewrite (debounced_unforced_pending _ this args h);
      [ | destruct w; assumption | assumption ].
    destruct w; reflexivity. }
  split; [ assumption | ].
  split; [ rewrite step_Call, Hd by assumption; reflexivity | ].
  destruct w; cbn in *; subst; repeat split; reflexivity.
Qed.

(** C10 (amended).  When an operation at clock time 0 executes the
    action, the state it leaves has [lastInvokeTime = 0], the value a
    controller that never executed has, so [shouldInvoke] answers [true]
    at every time, whatever [maxWait] is, although an execution has
    occurred; and this stays so until an execution at a non-zero clock
    time: after any further run whose executions, if any, are all dated
    0, [shouldInvoke] still answers [true]. *)
Theorem C10_execution_at_time_zero_looks_fresh :
  forall w e w',
    event_time e = 0 ->
    step fn cfg w e = Some w' ->
    executions w' <> executions w ->
    lastInvokeTime w' = 0 /\
    lastInvokeTime w' =
      lastInvokeTime
        (initial (This := This) (Args := Args) (R := R) 0 (env w)) /\
    (forall cfg' now, shouldInvoke cfg' now w' = true) /\
    (forall evs w'' new cfg' now,
        run fn cfg w' evs = Some w'' ->
        executions w'' = executions w' ++ new ->
        Forall (fun x => exec_time x = 0) new ->
        shouldInvoke cfg' now w'' = true).
Proof.
  intros w e w' Ht Hstep Hex.
  assert (Hli : lastInvokeTime w' = 0).
  { destruct (step_effect _ _ _ Hstep)
      as [[Hsame _] | (this & args & _ & Hli & _)]; congruence. }
  assert (Hforced : forall w1 cfg' now,
             lastInvokeTime w1 = 0 -> shouldInvoke cfg' now w1 = true).
  { intros w1 cfg' now H1. unfold shouldInvoke. now rewrite H1. }
  repeat split; auto.
  intros evs w'' new cfg' now Hrun Hnew Hzero. apply Hforced.
  eapply run_zero_sentinel; eassumption.
Qed.

(** *** Coalescing *)

Lemma last_cons_default {A} (l : list A) (a d : A) :
  last (a :: l) d = last l a.
Proof.
  revert a d. induction l as [| b l IH]; intros a d; [ reflexivity | ].
  change (last (a :: b :: l) d) with (last (b :: l) d).
  now rewrite !IH.
Qed.

Lemma step_Call_pending_no_maxWait w t this args h :
  timer w = Some h -> maxWait cfg = None -> clock w <= t ->
  step fn cfg w (Call t this args) = Some (note_call t this args w).
Proof.
  intros Ht Hm Hck. rewrite step_Call by assumption.
  rewrite (debounced_pending_no_maxWait _ this args h);
    [ | destruct w; assumption | assumption ].
  destruct w; reflexivity.
Qed.








(** *** Leading and trailing together *)

(** C3 (amended).  With [leading = true] and [trailing = true], a single
    proxy call on a new controller executes the action exactly once, at
    the call (leading edge); a timer that fires afterwards, when the
    window closes, executes nothing and leaves no window open, and when
    the action returned normally that timer does fire once it is due. *)
Theorem C3_single_call_executes_once :
  forall clock0 (env0 : Env) t this args,
    leading cfg = true -> trailing cfg = true -> clock0 <= t ->
    exists w1,
      step fn cfg (initial clock0 env0) (Call t this args) = Some w1 /\
      executions w1 = [mkExecution t this (Some args)] /\
      (forall tf h w2,
          step fn cfg w1 (TimerFires tf h) = Some w2 ->
          executions w2 = executions w1 /\ idle w2) /\
      (forall r tf,
          snd (fn this (Some args) env0) = Normal r ->
          t + Z.max 0 (wait cfg) <= tf ->
          exists w2, step fn cfg w1 (TimerFires tf O) = Some w2).
Proof.
  intros clock0 env0 t this args Hl Htr Hck.
  rewrite step_Call by assumption.
  rewrite debounced_leading by (assumption || reflexivity).
  cbn. destruct (fn this (Some args) env0) as [env' [r | x]]; cbn.
  - eexists; split; [ reflexivity | ]. split; [ reflexivity | ]. split.
    + intros tf h w2. unfold step, advance, is_due; cbn.
      destruct (t <=? tf); [ | discriminate ]. cbn.
      destruct h as [| h]; cbn; [ | discriminate ].
      destruct (_ <=? tf); cbn; [ | discriminate ].
      intros [= <-]. unfold_js. rewrite Htr. cbn. repeat split.
    + intros r' tf _ Htf. unfold step, advance, is_due; cbn.
      rewrite (proj2 (Z.leb_le t tf)) by lia. cbn.
      rewrite (proj2 (Z.leb_le _ tf)) by lia. cbn. eauto.
  - eexists; split; [ reflexivity | ]. split; [ reflexivity | ]. split.
    + intros tf h w2. unfold step, advance, is_due; cbn.
      destruct (t <=? tf); discriminate.
    + discriminate.
Qed.

(** *** [cancel] *)

(** C4 (amended).  [cancel()] returns nothing and leaves no window open:
    the host's task is removed, so no timer can fire and nothing is
    executed; the pending arguments and receiver are cleared and
    [lastInvokeTime] is back at the sentinel, so the next proxy call is
    forced and, with [leading = true], executes at once.  A second
    [cancel()] changes nothing.  With nothing pending, [cancel()] still
    resets [lastInvokeTime] and changes nothing else; it changes nothing
    at all only when [lastInvokeTime] is already the sentinel. *)
Theorem C4_cancel :
  forall w,
    timer_inv w ->
    exists w',
      cancel w = (w', Normal (Exn := Exn) tt) /\
      idle w' /\ lastArgs w' = None /\ lastThis w' = None /\
      lastInvokeTime w' = 0 /\
      executions w' = executions w /\
      (forall t h, step fn cfg w' (TimerFires t h) = None) /\
      (forall t this args,
          clock w' <= t ->
          shouldInvoke cfg t w' = true /\
          (leading cfg = true ->
           exists w'',
             step fn cfg w' (Call t this args) = Some w'' /\
             executions w'' =
               executions w' ++ [mkExecution t this (Some args)])) /\
      cancel w' = (w', Normal (Exn := Exn) tt) /\
      (timer w = None -> lastArgs w = None -> lastThis w = None ->
       w' = set_lastInvokeTime 0 w /\ (lastInvokeTime w = 0 -> w' = w)).
Proof.
  intros w Hinv. rewrite cancel_spec. eexists; split; [ reflexivity | ].
  unfold timer_inv in Hinv.
  destruct w as [tm la lt lc li rs ck nh tk en ex]; cbn in *.
  destruct tm as [h |]; [ destruct Hinv as [d ->] | subst tk ]; cbn;
    rewrite ?Nat.eqb_refl; cbn.
  all: repeat match goal with |- _ /\ _ => split end;
    try reflexivity.
  all: try (intros t h'; unfold step, advance, is_due; cbn;
            destruct (ck <=? t); reflexivity).
  all: try (intros t this args Hck; split; [ reflexivity | ];
            intros Hl; rewrite step_Call by assumption;
            rewrite debounced_leading by (assumption || reflexivity);
            cbn; destruct (fn this (Some args) en) as [env' [r | x]];
            cbn; eexists; split; reflexivity).
  all: try (split; reflexivity).
  all: try discriminate.
  intros _ -> ->. split; [ reflexivity | now intros -> ].
Qed.

(** *** [flush] *)

(** C5.  [flush()] with a deferred task outstanding removes the task and
    runs the trailing edge at the current time, returning what it returns:
    with [trailing] set and arguments pending the action is executed once,
    now, and its result is returned; otherwise nothing is executed and the
    stored result is returned.  [flush()] with no task outstanding changes
    nothing and returns the stored result.  Hence a second [flush()] right
    after a first one executes nothing and returns the stored result. *)
Theorem C5_flush :
  forall w,
    (forall h,
        timer w = Some h ->
        flush fn cfg w =
          trailingEdge fn cfg (clock w)
            (set_timer None (set_tasks (drop_task h (tasks w)) w)) /\
        timer (fst (flush fn cfg w)) = None /\
        tasks (fst (flush fn cfg w)) = drop_task h (tasks w) /\
        (forall a,
            trailing cfg = true -> lastArgs w = Some a ->
            executions (fst (flush fn cfg w)) =
              executions w ++ [mkExecution (clock w) (lastThis w) (Some a)] /\
            (forall r,
                snd (fn (lastThis w) (Some a) (env w)) = Normal r ->
                snd (flush fn cfg w) = Normal (Some r) /\
                result (fst (flush fn cfg w)) = Some r)) /\
        (trailing cfg && is_some (lastArgs w) = false ->
         executions (fst (flush fn cfg w)) = executions w /\
         snd (flush fn cfg w) = Normal (result w))) /\
    (timer w = None -> flush fn cfg w = (w, Normal (result w))) /\
    flush fn cfg (fst (flush fn cfg w)) =
      (fst (flush fn cfg w), Normal (result (fst (flush fn cfg w)))).
Proof.
  intros w. split; [ | split ].
  - intros h Ht. split; [ rewrite flush_spec, Ht; reflexivity | ].
    rewrite flush_spec, Ht, trailingEdge_spec, invokeFunc_spec.
    destruct w as [tm la lt lc li rs ck nh tk en ex]; cbn in *.
    destruct (trailing cfg), la as [a |]; cbn;
      try destruct (fn lt (Some a) en) as [env' [r | x]] eqn:Hfn; cbn;
      repeat split; try discriminate; try reflexivity.
    all: repeat match goal with
                | H : Some _ = Some _ |- _ => injection H as <-
                end;
      try rewrite Hfn in *; cbn in *; congruence.
  - intros Ht. rewrite flush_spec, Ht. reflexivity.
  - rewrite !flush_spec.
    destruct (timer w) as [h |] eqn:Ht; [ | cbn; now rewrite Ht ].
    rewrite trailingEdge_spec, invokeFunc_spec.
    destruct w as [tm la lt lc li rs ck nh tk en ex]; cbn in *.
    destruct (trailing cfg), la as [a |]; cbn;
      try destruct (fn lt (Some a) en) as [env' [r | x]]; reflexivity.
Qed.

(** *** Pending data is only ever executed for the call that left it *)

Lemma from_call_in_mono evs1 evs2 (x : @execution This Args) :
  incl evs1 evs2 -> from_call_in evs1 x -> from_call_in evs2 x.
Proof.
  intros Hincl (t & this & args & Hin & H1 & H2).
  exists t, this, args. auto.
Qed.

Lemma pending_from_timer_None evs w : timer w = None -> pending_from evs w.
Proof. intros H. now left. Qed.

Lemma step_pending_from pre w e w' :
  timer_inv w -> pending_from pre w ->
  step fn cfg w e = Some w' ->
  pending_from (pre ++ [e]) w' /\
  (executions w' = executions w \/
   exists x, executions w' = executions w ++ [x] /\
             from_call_in (pre ++ [e]) x).
Proof.
  unfold timer_inv. intros Hinv Hpend Hstep.
  destruct w as [tm la lt lc li rs ck nh tk en ex].
  unfold step, advance in Hstep; cbn in *.
  destruct (ck <=? event_time e); [ | discriminate ].
  destruct e as [t this args | t h | t | t]; cbn in *.
  - assert (Hin : In (Call t this args) (pre ++ [Call t this args]))
      by (apply in_or_app; right; now left).
    assert (Hx : from_call_in (pre ++ [Call t this args])
                   (mkExecution t this (Some args)))
      by (exists t, this, args; auto).
    assert (Hp : forall w1, lastThis w1 = this -> lastArgs w1 = Some args ->
                   pending_from (pre ++ [Call t this args]) w1)
      by (intros w1 H1 H2; right; right; exists t, this, args; auto).
    injection Hstep as <-. unfold_js.
    destruct tm as [h0 |]; js_split; split; eauto;
      try (apply Hp; reflexivity); right; left; reflexivity.
  - destruct tm as [h0 |]; [ destruct Hinv as [d ->] | subst tk ];
      cbn in *; [ | discriminate ].
    destruct (_ && _); [ | discriminate ].
    injection Hstep as <-. unfold_js.
    destruct Hpend as [Hp | [Hp | (t0 & this & args & Hin & Hth & Har)]];
      cbn in *; [ discriminate | subst la | subst ].
    + js_split; split; auto using pending_from_timer_None.
    + js_split; (split; [ now apply pending_from_timer_None | ]); auto;
        right; eexists; (split; [ reflexivity | ]);
        exists t0, this, args; repeat split; apply in_or_app; now left.
  - injection Hstep as <-. unfold_js.
    destruct tm as [h0 |]; cbn; split; auto using pending_from_timer_None.
  - injection Hstep as <-. unfold_js.
    destruct tm as [h0 |]; cbn;
      [ | split; auto using pending_from_timer_None ].
    destruct Hpend as [Hp | [Hp | (t0 & this & args & Hin & Hth & Har)]];
      cbn in *; [ discriminate | subst la | subst ].
    + js_split; split; auto using pending_from_timer_None.
    + js_split; (split; [ now apply pending_from_timer_None | ]); auto;
        right; eexists; (split; [ reflexivity | ]);
        exists t0, this, args; repeat split; apply in_or_app; now left.
Qed.

Lemma run_no_stale_execution evs : forall pre w w' new,
  timer_inv w -> pending_from pre w ->
  run fn cfg w evs = Some w' ->
  executions w' = executions w ++ new ->
  Forall (from_call_in (pre ++ evs)) new.
Proof.
  induction evs as [| e evs IH]; cbn; intros pre w w' new Hinv Hp Hrun Hex.
  - injection Hrun as <-. symmetry in Hex. apply app_eq_self in Hex.
    subst new. constructor.
  - destruct (step fn cfg w e) as [w1 |] eqn:Hstep; [ | discriminate ].
    destruct (step_pending_from pre _ _ _ Hinv Hp Hstep) as [Hp1 Hex1].
    pose proof (step_timer_inv _ _ _ Hinv Hstep) as Hinv1.
    destruct (run_executions_grow _ _ _ Hrun) as [new1 Hnew1].
    specialize (IH (pre ++ [e]) w1 w' new1 Hinv1 Hp1 Hrun Hnew1).
    rewrite <- app_assoc in IH. cbn in IH.
    destruct Hex1 as [Hsame | (x & Hx & Hfrom)].
    + rewrite Hnew1, Hsame in Hex. apply app_inv_head in Hex. now subst.
    + rewrite Hnew1, Hx, <- app_assoc in Hex. apply app_inv_head in Hex.
      subst new. cbn. constructor; [ | assumption ].
      eapply from_call_in_mono; [ | eassumption ].
      intros y Hy. apply in_app_or in Hy. apply in_or_app.
      destruct Hy as [Hy | [<- | []]]; [ now left | right; now left ].
Qed.

(** C9.  What the code does when the action throws in an execution
    started by a proxy call on the leading edge or by [flush()].  The
    exception reaches that caller, as it should, but the assignment
    [lastArgs = lastThis = null] of [invokeFunc], which comes after
    [fn.apply], is skipped: the pending arguments and receiver are still
    those of the failed execution, where every other path (a normal
    return, the other branch of [trailingEdge], [cancel]) clears them.
    The rest of the state is as after an execution: [lastInvokeTime] is
    the time of the failed execution, no timer is outstanding (the leading
    call never got to start one, [flush()] had already removed it) and
    the stored result is the old one.  The data left behind are never
    executed again: whatever happens afterwards, every further execution
    uses the receiver and arguments of a later proxy call. *)
Theorem C9_throw_keeps_pending_data :
  forall w x env',
    timer_inv w ->
    (forall this args,
        timer w = None ->
        shouldInvoke cfg (clock w) w = true ->
        leading cfg = true ->
        fn this (Some args) (env w) = (env', Throw x) ->
        exists w',
          debounced fn cfg this args w = (w', Throw x) /\
          lastArgs w' = Some args /\ lastThis w' = this /\
          lastInvokeTime w' = clock w /\ result w' = result w /\
          idle w' /\
          executions w' =
            executions w ++ [mkExecution (clock w) this (Some args)] /\
          (forall evs w'' new,
              run fn cfg w' evs = Some w'' ->
              executions w'' = executions w' ++ new ->
              Forall (from_call_in evs) new)) /\
    (forall h a,
        timer w = Some h ->
        trailing cfg = true ->
        lastArgs w = Some a ->
        fn (lastThis w) (Some a) (env w) = (env', Throw x) ->
        exists w',
          flush fn cfg w = (w', Throw x) /\
          lastArgs w' = Some a /\ lastThis w' = lastThis w /\
          lastInvokeTime w' = clock w /\ result w' = result w /\
          idle w' /\
          executions w' =
            executions w ++ [mkExecution (clock w) (lastThis w) (Some a)] /\
          (forall evs w'' new,
              run fn cfg w' evs = Some w'' ->
              executions w'' = executions w' ++ new ->
              Forall (from_call_in evs) new)).
Proof.
  intros w x env' Hinv. unfold timer_inv in Hinv.
  assert (Hlater : forall w', idle w' ->
            forall evs w'' new,
              run fn cfg w' evs = Some w'' ->
              executions w'' = executions w' ++ new ->
              Forall (from_call_in evs) new).
  { intros w' [Ht Htk] evs w'' new Hrun Hex.
    apply (run_no_stale_execution evs [] w' w'' new); try assumption.
    - unfold timer_inv. now rewrite Ht.
    - now apply pending_from_timer_None. }
  split.
  - intros this args Ht Hs Hl Hfn.
    rewrite debounced_leading by assumption. cbn. rewrite Hfn. cbn.
    eexists; split; [ reflexivity | ].
    assert (Hidle : idle
              (attempted (clock w) env' (note_call (clock w) this args w))).
    { destruct w; cbn in *; subst; cbn in *; subst. split; reflexivity. }
    repeat split; try (destruct w; reflexivity); try apply Hidle.
    now apply Hlater.
  - intros h a Ht Htr Hla Hfn.
    rewrite flush_spec, Ht, trailingEdge_spec, invokeFunc_spec.
    destruct w as [tm la lt lc li rs ck nh tk en ex]; cbn in *; subst.
    destruct Hinv as [d ->]. rewrite Htr, Hfn. cbn.
    rewrite Nat.eqb_refl. cbn.
    eexists; split; [ reflexivity | ].
    repeat split. now apply Hlater.
Qed.

(** *** Forced calls that find a timer *)

(** With [maxWait] configured, once a timer is outstanding and the calls
    are forced (nothing executed yet, or [maxWait] already elapsed since
    the last execution), every further call replaces the timer by one due
    [wait] later and executes nothing, however many calls there are. *)
Lemma forced_calls_only_postpone cs : forall w h d m,
  maxWait cfg = Some m ->
  timer w = Some h -> tasks w = [(h, d)] ->
  lastInvokeTime w = 0 \/ m <= clock w - lastInvokeTime w ->
  ascending (clock w) (map call_time cs) ->
  exists w' h' d',
    run fn cfg w (map call_event cs) = Some w' /\
    executions w' = executions w /\
    lastInvokeTime w' = lastInvokeTime w /\
    timer w' = Some h' /\ tasks w' = [(h', d')] /\
    (cs <> [] -> d' = clock w' + Z.max 0 (wait cfg)).
Proof.
  induction cs as [| c cs IH]; cbn; intros w h d m Hm Ht Htk Hf Hasc.
  - exists w, h, d. repeat split; auto. congruence.
  - destruct Hasc as [Hck Hasc]. unfold call_event at 1.
    rewrite step_Call by assumption.
    assert (Hs : shouldInvoke cfg (clock (set_clock (call_time c) w))
                   (set_clock (call_time c) w) = true).
    { destruct w; cbn in *. unfold shouldInvoke; cbn. rewrite Hm.
      destruct (Z.eqb_spec lastInvokeTime0 0); [ reflexivity | ].
      rewrite Z.geb_leb. apply Z.leb_le. lia. }
    rewrite (debounced_forced_pending _ _ _ h m);
      [ | destruct w; assumption | assumption | assumption ].
    cbn [fst].
    match goal with |- context [run fn cfg ?w1 _] => set (w1' := w1) end.
    assert (H1 : timer w1' = Some (next_handle w) /\
                 tasks w1' =
                   [(next_handle w, call_time c + Z.max 0 (wait cfg))] /\
                 clock w1' = call_time c /\
                 executions w1' = executions w /\
                 lastInvokeTime w1' = lastInvokeTime w).
    { subst w1'. destruct w; cbn in *; subst. cbn.
      rewrite Nat.eqb_refl. repeat split. }
    destruct H1 as (Ht1 & Htk1 & Hck1 & Hex1 & Hli1).
    destruct (IH w1' _ _ m Hm Ht1 Htk1) as (w' & h' & d' & Hrun & Hex & Hli & Ht' & Htk' & Hd');
      [ rewrite Hli1, Hck1; lia | now rewrite Hck1 | ].
    exists w', h', d'. repeat split; try congruence.
    intros _. destruct cs as [| c' cs'].
    + cbn in Hrun. injection Hrun as <-. rewrite Htk1 in Htk'.
      injection Htk' as _ <-. now rewrite Hck1.
    + apply Hd'. discriminate.
Qed.

(** *** Further properties of the closure *)

(** **** The record of the last call *)

Lemma latest_call_app evs : forall acc e,
  latest_call acc (evs ++ [e]) =
    match e with
    | Call t this args => Some (t, this, args)
    | _ => latest_call acc evs
    end.
Proof.
  induction evs as [| e0 evs IH]; intros acc e.
  - destruct e; reflexivity.
  - destruct e0; cbn; apply IH.
Qed.

Lemma step_records_call c w e w' :
  records_call c w ->
  step fn cfg w e = Some w' ->
  records_call (latest_call c [e]) w' /\
  (executions w' = executions w \/
   exists c0,
     latest_call c [e] = Some c0 /\
     executions w' =
       executions w ++
       [mkExecution (event_time e) (call_this c0) (Some (call_args c0))]).
Proof.
  unfold records_call. intros (Hlc & Hpair & Hargs) Hstep.
  destruct w as [tm la lt lc li rs ck nh tk en ex].
  unfold step, advance in Hstep; cbn in *.
  destruct (ck <=? event_time e); [ | discriminate ].
  destruct e as [t this args | t h | t | t]; cbn in *.
  - assert (Hnew : forall a, Some args = Some a ->
              exists c0 : call, Some (t, this, args) = Some c0 /\
                         a = call_args c0 /\ this = call_this c0)
      by (intros a [= <-]; eexists; repeat split).
    injection Hstep as <-. unfold_js.
    destruct tm as [h0 |]; js_split;
      repeat split; auto; try discriminate;
      right; eexists; split; reflexivity.
  - destruct (existsb _ _); [ | discriminate ].
    injection Hstep as <-. unfold_js.
    destruct la as [a |]; js_split;
      repeat split; auto; try discriminate;
      destruct (Hargs a eq_refl) as (c0 & -> & -> & ->);
      try (intros a' [= <-]; eexists; repeat split);
      right; eexists; split; reflexivity.
  - injection Hstep as <-. unfold_js.
    destruct tm as [h0 |]; cbn; repeat split; auto; discriminate.
  - injection Hstep as <-. unfold_js.
    destruct tm as [h0 |]; cbn; [ | repeat split; auto ].
    destruct la as [a |]; js_split;
      repeat split; auto; try discriminate;
      destruct (Hargs a eq_refl) as (c0 & -> & -> & ->);
      try (intros a' [= <-]; eexists; repeat split);
      right; eexists; split; reflexivity.
Qed.

Lemma run_records_call evs : forall c w w',
  records_call c w ->
  run fn cfg w evs = Some w' ->
  records_call (latest_call c evs) w'.
Proof.
  induction evs as [| e evs IH]; cbn [run]; intros c w w' Hrec Hrun.
  - now injection Hrun as <-.
  - destruct (step fn cfg w e) as [w1 |] eqn:Hstep; [ | discriminate ].
    destruct (step_records_call _ _ _ _ Hrec Hstep) as [Hrec1 _].
    specialize (IH _ _ _ Hrec1 Hrun).
    destruct e; exact IH.
Qed.

Lemma initial_records_call clock0 (env0 : Env) :
  records_call None
    (initial (This := This) (Args := Args) (R := R) clock0 env0).
Proof. repeat split; cbn; intros; discriminate. Qed.

(** X1.  Every execution uses the receiver and the arguments of the most
    recent proxy call: whatever the history, when a step executes the
    action, it executes it once, at the time of the step, on the data of
    the latest call made so far. *)
Theorem execution_uses_latest_call :
  forall clock0 (env0 : Env) evs w e w',
    run fn cfg (initial clock0 env0) evs = Some w ->
    step fn cfg w e = Some w' ->
    executions w' <> executions w ->
    exists c0,
      latest_call None (evs ++ [e]) = Some c0 /\
      executions w' =
        executions w ++
        [mkExecution (event_time e) (call_this c0) (Some (call_args c0))].
Proof.
  intros clock0 env0 evs w e w' Hrun Hstep Hex.
  pose proof (run_records_call _ _ _ _
                (initial_records_call clock0 env0) Hrun) as Hrec.
  destruct (step_records_call _ _ _ _ Hrec Hstep)
    as [_ [Hsame | (c0 & Hc0 & Hnew)]]; [ contradiction | ].
  exists c0. split; [ | assumption ].
  rewrite latest_call_app. destruct e; exact Hc0.
Qed.

(** X2.  In every reachable state [lastCallTime] is the time of the most
    recent proxy call (absent when there was none); pending arguments, when
    present, are those of that call and the pending receiver is its
    receiver; and when no arguments are pending no receiver is kept. *)
Theorem closure_records_latest_call :
  forall clock0 (env0 : Env) evs w,
    run fn cfg (initial clock0 env0) evs = Some w ->
    lastCallTime w = option_map call_time (latest_call None evs) /\
    (lastArgs w = None -> lastThis w = None) /\
    (forall a, lastArgs w = Some a ->
       exists c0,
         latest_call None evs = Some c0 /\
         a = call_args c0 /\ lastThis w = call_this c0).
Proof.
  intros clock0 env0 evs w Hrun.
  exact (run_records_call _ _ _ _ (initial_records_call clock0 env0) Hrun).
Qed.

(** **** Never more executions than calls *)

Lemma step_owed w e w' n :
  timer_inv w ->
  (List.length (executions w) + owed w <= n)%nat ->
  step fn cfg w e = Some w' ->
  (List.length (executions w') + owed w'
   <= n + (if is_call e then 1 else 0))%nat.
Proof.
  unfold timer_inv, owed. intros Hinv Hn Hstep.
  destruct w as [tm la lt lc li rs ck nh tk en ex].
  unfold step, advance in Hstep; cbn in *.
  destruct (ck <=? event_time e); [ | discriminate ].
  destruct e as [t this args | t h | t | t]; cbn in *.
  - injection Hstep as <-. unfold_js.
    destruct tm as [h0 |], la as [a |]; js_split;
      rewrite ?length_app; cbn; lia.
  - destruct tm as [h0 |]; [ destruct Hinv as [d ->] | subst tk ];
      cbn in *; [ | discriminate ].
    destruct (_ && _); [ | discriminate ].
    injection Hstep as <-. unfold_js.
    destruct la as [a |]; js_split; rewrite ?length_app; cbn in *; lia.
  - injection Hstep as <-. unfold_js.
    destruct tm as [h0 |], la as [a |]; cbn in *; lia.
  - injection Hstep as <-. unfold_js.
    destruct tm as [h0 |], la as [a |]; js_split;
      rewrite ?length_app; cbn in *; lia.
Qed.

Lemma run_owed evs : forall w w' n,
  timer_inv w ->
  (List.length (executions w) + owed w <= n)%nat ->
  run fn cfg w evs = Some w' ->
  (List.length (executions w') + owed w' <= n + count_calls evs)%nat.
Proof.
  induction evs as [| e evs IH]; cbn [run]; intros w w' n Hinv Hn Hrun.
  - injection Hrun as <-. cbn. lia.
  - destruct (step fn cfg w e) as [w1 |] eqn:Hstep; [ | discriminate ].
    pose proof (step_owed _ _ _ _ Hinv Hn Hstep) as Hn1.
    pose proof (step_timer_inv _ _ _ Hinv Hstep) as Hinv1.
    specialize (IH _ _ _ Hinv1 Hn1 Hrun).
    unfold count_calls in *. cbn [filter].
    destruct (is_call e); cbn [List.length] in *; lia.
Qed.

(** X3.  The action is never executed more often than the proxy has been
    called: in every reachable state the number of executions, plus one
    when a timer is outstanding with arguments pending, is at most the
    number of proxy calls made. *)
Theorem executions_at_most_calls :
  forall clock0 (env0 : Env) evs w,
    run fn cfg (initial clock0 env0) evs = Some w ->
    (List.length (executions w) + owed w <= count_calls evs)%nat.
Proof.
  intros clock0 env0 evs w Hrun.
  apply (run_owed evs (initial clock0 env0) w 0%nat);
    [ apply initial_timer_inv | cbn; lia | assumption ].
Qed.

(** **** What [lastInvokeTime], [result] and the log say about each other *)

Lemma step_log_inv w e w' :
  (lastInvokeTime w = 0 \/
   exists l x, executions w = l ++ [x] /\ exec_time x = lastInvokeTime w) ->
  Forall (fun x => exec_time x <= clock w) (executions w) ->
  step fn cfg w e = Some w' ->
  (lastInvokeTime w' = 0 \/
   exists l x, executions w' = l ++ [x] /\ exec_time x = lastInvokeTime w') /\
  Forall (fun x => exec_time x <= clock w') (executions w').
Proof.
  intros Hli Hall Hstep.
  destruct (step_clock _ _ _ Hstep) as [Hle Hck].
  assert (Hall' : Forall (fun x => exec_time x <= clock w') (executions w)).
  { eapply Forall_impl; [ | exact Hall ]. cbn. intros x Hx. lia. }
  destruct (step_effect _ _ _ Hstep)
    as [[Hex [Hsame | [_ Hzero]]] | (this & args & Hex & Hnew & _)];
    rewrite Hex.
  - split; [ rewrite Hsame; exact Hli | assumption ].
  - split; [ now left | assumption ].
  - split; [ right; eexists; eexists; split; [ reflexivity | ]; cbn; congruence | ].
    apply Forall_app. split; [ assumption | ].
    constructor; [ cbn; lia | constructor ].
Qed.

(** X4.  In every reachable state [lastInvokeTime] is either the sentinel
    0 or the time of the most recent execution in the log, and no
    execution is dated after the current clock reading. *)
Theorem lastInvokeTime_is_last_execution :
  forall clock0 (env0 : Env) evs w,
    run fn cfg (initial clock0 env0) evs = Some w ->
    (lastInvokeTime w = 0 \/
     exists l x, executions w = l ++ [x] /\ exec_time x = lastInvokeTime w) /\
    Forall (fun x => exec_time x <= clock w) (executions w).
Proof.
  intros clock0 env0 evs.
  assert (Hgen : forall w0 w,
    (lastInvokeTime w0 = 0 \/
     exists l x, executions w0 = l ++ [x] /\ exec_time x = lastInvokeTime w0) ->
    Forall (fun x => exec_time x <= clock w0) (executions w0) ->
    run fn cfg w0 evs = Some w ->
    (lastInvokeTime w = 0 \/
     exists l x, executions w = l ++ [x] /\ exec_time x = lastInvokeTime w) /\
    Forall (fun x => exec_time x <= clock w) (executions w)).
  { induction evs as [| e evs IH]; cbn [run]; intros w0 w H1 H2 Hrun.
    - injection Hrun as <-. now split.
    - destruct (step fn cfg w0 e) as [w1 |] eqn:Hstep; [ | discriminate ].
      destruct (step_log_inv _ _ _ H1 H2 Hstep) as [H1' H2'].
      now apply (IH w1). }
  intros w Hrun. apply (Hgen (initial clock0 env0)); try assumption.
  - now left.
  - constructor.
Qed.

(** X5.  A step that executes nothing leaves the stored result and the
    action's environment untouched; a step that executes applies the
    action once to the pending receiver and arguments, and then the
    stored result is the value the action returned and the pending data
    are cleared, or, when the action threw, the stored result is the old
    one. *)
Theorem result_follows_executions :
  forall w e w',
    step fn cfg w e = Some w' ->
    (executions w' = executions w /\
     result w' = result w /\ env w' = env w) \/
    (exists this args,
        executions w' =
          executions w ++ [mkExecution (event_time e) this args] /\
        env w' = fst (fn this args (env w)) /\
        match snd (fn this args (env w)) with
        | Normal r =>
            result w' = Some r /\ lastArgs w' = None /\ lastThis w' = None
        | Throw _ => result w' = result w /\ lastArgs w' = args
        end).
Proof.
  intros w e w' Hstep.
  destruct w as [tm la lt lc li rs ck nh tk en ex].
  unfold step, advance in Hstep; cbn in *.
  destruct (ck <=? event_time e); [ | discriminate ].
  destruct e as [t this args | t h | t | t]; cbn in *.
  - injection Hstep as <-. unfold_js.
    destruct tm as [h0 |]; js_split; auto;
      right; eexists; eexists; (split; [ reflexivity | ]);
      rewrite Heqp; cbn; auto.
  - destruct (existsb _ _); [ | discriminate ].
    injection Hstep as <-. unfold_js.
    destruct la as [a |]; js_split; auto;
      right; eexists; eexists; (split; [ reflexivity | ]);
      rewrite Heqp; cbn; auto.
  - injection Hstep as <-. unfold_js.
    destruct tm as [h0 |]; cbn; auto.
  - injection Hstep as <-. unfold_js.
    destruct tm as [h0 |]; cbn; auto.
    destruct la as [a |]; js_split; auto;
      right; eexists; eexists; (split; [ reflexivity | ]);
      rewrite Heqp; cbn; auto.
Qed.

(** X6.  A proxy call returns the stored result as it is when the call
    ends.  It throws only when it runs the action itself, that is on the
    leading edge of a forced call that finds no timer, and the action
    throws. *)
Theorem proxy_call_outcome :
  forall w this args w' out,
    debounced fn cfg this args w = (w', out) ->
    match out with
    | Normal r => r = result w'
    | Throw x =>
        timer w = None /\ leading cfg = true /\
        shouldInvoke cfg (clock w) w = true /\
        snd (fn this (Some args) (env w)) = Throw x
    end.
Proof.
  intros w this args w' out Hd.
  destruct w as [tm la lt lc li rs ck nh tk en ex].
  unfold_js. cbn in Hd. revert Hd.
  destruct tm as [h0 |]; js_split; intros [= <- <-]; cbn; auto;
    rewrite ?Heqp; auto.
Qed.

(** **** Configurations that never execute *)

Lemma step_degenerate w e w' :
  leading cfg = false -> trailing cfg = false ->
  step fn cfg w e = Some w' ->
  executions w' = executions w /\ result w' = result w /\
  env w' = env w /\ lastInvokeTime w' = 0 \/
  executions w' = executions w /\ result w' = result w /\
  env w' = env w /\ lastInvokeTime w' = lastInvokeTime w.
Proof.
  intros Hl Htr Hstep.
  destruct w as [tm la lt lc li rs ck nh tk en ex].
  unfold step, advance in Hstep; cbn in *.
  destruct (ck <=? event_time e); [ | discriminate ].
  destruct e as [t this args | t h | t | t]; cbn in *.
  - injection Hstep as <-. unfold_js. rewrite Hl.
    destruct tm as [h0 |]; js_split; auto.
  - destruct (existsb _ _); [ | discriminate ].
    injection Hstep as <-. unfold_js. rewrite Htr. cbn. auto.
  - injection Hstep as <-. unfold_js.
    destruct tm as [h0 |]; cbn; auto.
  - injection Hstep as <-. unfold_js. rewrite Htr.
    destruct tm as [h0 |]; cbn; auto.
Qed.

(** X7.  With neither [leading] nor [trailing] the action is never
    executed: whatever calls, timer firings, [cancel()] and [flush()]
    happen, the log, the stored result and the action's environment stay
    as they were, and a [flush()] at the end returns that stored result
    (for a new controller, nothing). *)
Theorem degenerate_configuration_never_executes :
  forall w evs w',
    leading cfg = false -> trailing cfg = false ->
    run fn cfg w evs = Some w' ->
    executions w' = executions w /\ result w' = result w /\
    env w' = env w /\
    snd (flush fn cfg w') = Normal (result w).
Proof.
  intros w evs w' Hl Htr. revert w.
  assert (Hrun : forall w, run fn cfg w evs = Some w' ->
            executions w' = executions w /\ result w' = result w /\
            env w' = env w).
  { induction evs as [| e evs IH]; cbn [run]; intros w Hrun.
    - injection Hrun as <-. auto.
    - destruct (step fn cfg w e) as [w1 |] eqn:Hstep; [ | discriminate ].
      destruct (IH _ Hrun) as (H1 & H2 & H3).
      destruct (step_degenerate _ _ _ Hl Htr Hstep)
        as [(E1 & E2 & E3 & _) | (E1 & E2 & E3 & _)];
        repeat split; congruence. }
  intros w Hr. destruct (Hrun w Hr) as (H1 & H2 & H3).
  repeat split; try assumption.
  rewrite flush_spec, <- H2.
  destruct (timer w') as [h |]; [ | reflexivity ].
  rewrite trailingEdge_spec, Htr. cbn. destruct w'; reflexivity.
Qed.

(** **** Calls that cannot run the action *)

(** X8.  Without [maxWait], once [lastInvokeTime] has left the sentinel
    (an execution has happened at a non-zero time and no [cancel()]
    since), no proxy call runs the action itself, [leading] or not: the
    call returns the stored result, and the action's environment, the log
    and the stored result are unchanged. *)
Theorem leading_edge_only_from_sentinel :
  forall w this args,
    maxWait cfg = None ->
    lastInvokeTime w <> 0 ->
    exists w',
      debounced fn cfg this args w = (w', Normal (result w)) /\
      executions w' = executions w /\ env w' = env w /\
      result w' = result w /\ lastInvokeTime w' = lastInvokeTime w /\
      lastArgs w' = Some args /\ lastThis w' = this /\
      timer w' <> None.
Proof.
  intros w this args Hm Hli.
  assert (Hs : shouldInvoke cfg (clock w) w = false).
  { unfold shouldInvoke. rewrite Hm.
    destruct (Z.eqb_spec (lastInvokeTime w) 0); [ contradiction | reflexivity ]. }
  destruct (timer w) as [h |] eqn:Ht.
  - rewrite (debounced_unforced_pending _ _ _ h Ht Hs).
    eexists; split; [ reflexivity | ].
    destruct w; cbn in *; subst. repeat split. discriminate.
  - rewrite (debounced_start _ _ _ Ht) by now rewrite Hs.
    eexists; split; [ reflexivity | ].
    destruct w; cbn in *; subst. repeat split. discriminate.
Qed.

(** X9.  Without [maxWait], proxy calls that find a timer outstanding do
    not touch it, forced or not: however many such calls follow one
    another, the timer and its due time, the log and [lastInvokeTime] are
    the same afterwards, so the window closes [wait] after the call that
    opened it, not after the last call. *)
Theorem calls_do_not_extend_window_without_maxWait :
  forall cs w h,
    maxWait cfg = None ->
    timer w = Some h ->
    ascending (clock w) (map call_time cs) ->
    exists w',
      run fn cfg w (map call_event cs) = Some w' /\
      timer w' = Some h /\ tasks w' = tasks w /\
      executions w' = executions w /\
      lastInvokeTime w' = lastInvokeTime w /\ result w' = result w.
Proof.
  induction cs as [| c cs IH]; cbn [map run]; intros w h Hm Ht Hasc.
  - exists w. repeat split; assumption.
  - destruct Hasc as [Hck Hasc]. unfold call_event at 1.
    rewrite (step_Call_pending_no_maxWait _ _ _ _ h) by assumption.
    set (w1 := note_call (call_time c) (call_this c) (call_args c) w).
    assert (H1 : timer w1 = Some h /\ tasks w1 = tasks w /\
                 executions w1 = executions w /\
                 lastInvokeTime w1 = lastInvokeTime w /\
                 result w1 = result w /\ clock w1 = call_time c).
    { subst w1. destruct w; cbn in *; subst. repeat split. }
    destruct H1 as (Ht1 & Htk1 & Hex1 & Hli1 & Hrs1 & Hck1).
    destruct (IH w1 h Hm Ht1) as (w' & Hrun & E1 & E2 & E3 & E4 & E5);
      [ now rewrite Hck1 | ].
    exists w'. repeat split; congruence.
Qed.

(** **** Forced calls that find a timer *)

Lemma step_Call_forced_pending w t this args h d m :
  maxWait cfg = Some m ->
  timer w = Some h -> tasks w = [(h, d)] ->
  lastInvokeTime w = 0 \/ m <= t - lastInvokeTime w ->
  clock w <= t ->
  exists w1,
    step fn cfg w (Call t this args) = Some w1 /\
    timer w1 = Some (next_handle w) /\
    tasks w1 = [(next_handle w, t + Z.max 0 (wait cfg))] /\
    clock w1 = t /\ executions w1 = executions w /\
    lastInvokeTime w1 = lastInvokeTime w.
Proof.
  intros Hm Ht Htk Hf Hck. rewrite step_Call by assumption.
  assert (Hs : shouldInvoke cfg (clock (set_clock t w)) (set_clock t w)
               = true).
  { destruct w; cbn in *. unfold shouldInvoke; cbn. rewrite Hm.
    destruct (Z.eqb_spec lastInvokeTime0 0); [ reflexivity | ].
    rewrite Z.geb_leb. apply Z.leb_le. lia. }
  rewrite (debounced_forced_pending _ _ _ h m);
    [ | destruct w; assumption | assumption | assumption ].
  eexists; split; [ reflexivity | ].
  destruct w; cbn in *; subst. cbn. rewrite Nat.eqb_refl. repeat split.
Qed.

(** X10.  With [maxWait] configured, while calls are forced (nothing was
    executed yet, or [maxWait] has elapsed since the last execution) and a
    timer is outstanding, every proxy call replaces the timer by one due a
    full [wait] later and executes nothing: after each call of such a run
    the log is unchanged and the only task is due [wait] from then. *)
Theorem forced_calls_restart_timer :
  forall cs w h d m,
    maxWait cfg = Some m ->
    timer w = Some h -> tasks w = [(h, d)] ->
    lastInvokeTime w = 0 \/ m <= clock w - lastInvokeTime w ->
    ascending (clock w) (map call_time cs) ->
    List.length (history fn cfg w (map call_event cs)) = List.length cs /\
    Forall (fun w1 =>
              executions w1 = executions w /\
              exists h1, timer w1 = Some h1 /\
                         tasks w1 = [(h1, clock w1 + Z.max 0 (wait cfg))])
           (history fn cfg w (map call_event cs)).
Proof.
  induction cs as [| c cs IH]; cbn [map history]; intros w h d m Hm Ht Htk Hf Hasc.
  - split; [ reflexivity | constructor ].
  - destruct Hasc as [Hck Hasc]. unfold call_event at 1 3.
    destruct (step_Call_forced_pending w (call_time c) (call_this c)
                (call_args c) h d m Hm Ht Htk)
      as (w1 & Hstep & Ht1 & Htk1 & Hck1 & Hex1 & Hli1);
      [ lia | assumption | ].
    rewrite Hstep.
    destruct (IH w1 _ _ m Hm Ht1 Htk1) as [Hlen Hall];
      [ rewrite Hli1, Hck1; lia | now rewrite Hck1 | ].
    split; [ cbn; now rewrite Hlen | ].
    constructor.
    + split; [ assumption | ]. eexists. split; [ eassumption | ].
      now rewrite Htk1, Hck1.
    + eapply Forall_impl; [ | exact Hall ]. cbn.
      intros w2 [E1 E2]. split; [ congruence | assumption ].
Qed.

(** **** Timers *)

Lemma step_TimerFires_idle w t h :
  idle w -> step fn cfg w (TimerFires t h) = None.
Proof.
  intros [_ Htk]. unfold step, advance, is_due.
  destruct w; cbn in *; subst. destruct (_ <=? _); reflexivity.
Qed.

Lemma step_TimerFires_inv w tf h w' :
  timer_inv w -> step fn cfg w (TimerFires tf h) = Some w' ->
  timer w = Some h /\ idle w'.
Proof.
  unfold timer_inv, idle. intros Hinv Hstep.
  destruct w as [tm la lt lc li rs ck nh tk en ex].
  unfold step, advance, is_due in Hstep; cbn in *.
  destruct (ck <=? tf); [ | discriminate ].
  destruct tm as [h0 |]; [ destruct Hinv as [d ->] | subst tk ];
    cbn in *; [ | discriminate ].
  destruct (Nat.eqb_spec h0 h); cbn in *; [ subst h0 | discriminate ].
  destruct (d <=? tf); cbn in *; [ | discriminate ].
  injection Hstep as <-. unfold_js.
  js_split; destruct la; js_split; repeat split.
Qed.

Lemma flush_idle w : timer_inv w -> idle (fst (flush fn cfg w)).
Proof.
  unfold timer_inv, idle. intros Hinv.
  destruct w as [tm la lt lc li rs ck nh tk en ex]. cbn in *.
  unfold_js.
  destruct tm as [h0 |]; [ destruct Hinv as [d ->] | subst tk ];
    cbn; rewrite ?Nat.eqb_refl; cbn;
    [ js_split; destruct la; js_split; repeat split | repeat split ].
Qed.

(** X11.  A timer runs at most once and never after [flush()]: when the
    host runs a task it is the one [timer] names, and afterwards, as after
    any [flush()], no window is open and the host has nothing left to
    run until a further proxy call. *)
Theorem timer_runs_once_and_not_after_flush :
  forall w,
    timer_inv w ->
    (forall tf h w',
        step fn cfg w (TimerFires tf h) = Some w' ->
        timer w = Some h /\ idle w' /\
        forall t h', step fn cfg w' (TimerFires t h') = None) /\
    idle (fst (flush fn cfg w)) /\
    (forall t h, step fn cfg (fst (flush fn cfg w)) (TimerFires t h) = None).
Proof.
  intros w Hinv. split; [ | split ].
  - intros tf h w' Hstep.
    destruct (step_TimerFires_inv _ _ _ _ Hinv Hstep) as [Ht Hidle].
    repeat split; try assumption; try apply Hidle.
    intros t h'. now apply step_TimerFires_idle.
  - now apply flush_idle.
  - intros t h. apply step_TimerFires_idle. now apply flush_idle.
Qed.

Lemma step_due_within w e w' :
  timer_inv w -> due_within (wait cfg) w ->
  step fn cfg w e = Some w' -> due_within (wait cfg) w'.
Proof.
  unfold timer_inv, due_within. intros Hinv Hdue Hstep.
  pose proof (Z.le_max_l 0 (wait cfg)) as Hmax.
  destruct w as [tm la lt lc li rs ck nh tk en ex].
  unfold step, advance in Hstep; cbn in *.
  destruct (Z.leb_spec ck (event_time e)); [ | discriminate ].
  destruct e as [t this args | t h | t | t]; cbn in *.
  - injection Hstep as <-. unfold_js.
    destruct tm as [h0 |]; [ destruct Hinv as [d ->] | subst tk ];
      js_split; rewrite ?Nat.eqb_refl; cbn;
      intros h1 d1 [= <- <-]; try lia;
      specialize (Hdue _ _ eq_refl); lia.
  - destruct tm as [h0 |]; [ destruct Hinv as [d ->] | subst tk ];
      cbn in *; [ | discriminate ].
    destruct (Nat.eqb_spec h0 h); cbn in *; [ subst h0 | discriminate ].
    destruct (d <=? t); cbn in *; [ | discriminate ].
    injection Hstep as <-. unfold_js.
    js_split; destruct la; js_split; intros; discriminate.
  - injection Hstep as <-. unfold_js.
    destruct tm as [h0 |]; [ destruct Hinv as [d ->] | subst tk ];
      cbn; rewrite ?Nat.eqb_refl; cbn; intros; discriminate.
  - injection Hstep as <-. unfold_js.
    destruct tm as [h0 |]; [ destruct Hinv as [d ->] | subst tk ];
      js_split; rewrite ?Nat.eqb_refl; cbn; try destruct la;
      js_split; intros; discriminate.
Qed.

Lemma run_due_within evs : forall w w',
  timer_inv w -> due_within (wait cfg) w ->
  run fn cfg w evs = Some w' ->
  timer_inv w' /\ due_within (wait cfg) w'.
Proof.
  induction evs as [| e evs IH]; cbn [run]; intros w w' Hinv Hdue Hrun.
  - injection Hrun as <-. now split.
  - destruct (step fn cfg w e) as [w1 |] eqn:Hstep; [ | discriminate ].
    apply (IH w1);
      [ eapply step_timer_inv | eapply step_due_within | ]; eassumption.
Qed.

(** X12.  No call is left without a timer: in every reachable state, a
    proxy call that returns (does not throw) leaves exactly one deferred
    task outstanding, the one [timer] names, due at most [wait] after the
    call. *)
Theorem returned_call_leaves_timer :
  forall clock0 (env0 : Env) evs w t this args w' r,
    run fn cfg (initial clock0 env0) evs = Some w ->
    clock w <= t ->
    debounced fn cfg this args (set_clock t w) = (w', Normal r) ->
    exists h d,
      timer w' = Some h /\ tasks w' = [(h, d)] /\
      d <= t + Z.max 0 (wait cfg).
Proof.
  intros clock0 env0 evs w t this args w' r Hrun Hck Hd.
  destruct (run_due_within evs (initial clock0 env0) w) as [Hinv Hdue];
    [ apply initial_timer_inv | intros h d; discriminate | assumption | ].
  unfold timer_inv, due_within in *.
  destruct w as [tm la lt lc li rs ck nh tk en ex]. cbn in *.
  unfold_js. cbn in Hd. revert Hd.
  destruct tm as [h0 |]; [ destruct Hinv as [d ->] | subst tk ];
    js_split; rewrite ?Nat.eqb_refl; cbn;
    intros [= <- <-]; eexists; eexists;
    (split; [ reflexivity | ]); (split; [ reflexivity | ]);
    try lia; specialize (Hdue _ _ eq_refl); lia.
Qed.

(** **** Bursts on the leading edge *)

Lemma run_calls_keep_window cs : forall w h (c0 : call),
  maxWait cfg = None ->
  timer w = Some h ->
  clock w = call_time c0 ->
  ascending (clock w) (map call_time cs) ->
  exists w',
    run fn cfg w (map call_event cs) = Some w' /\
    timer w' = Some h /\ tasks w' = tasks w /\
    executions w' = executions w /\ result w' = result w /\
    clock w' = call_time (last cs c0).
Proof.
  induction cs as [| c cs IH]; cbn [map run]; intros w h c0 Hm Ht Hc0 Hasc.
  - exists w. repeat split; assumption.
  - destruct Hasc as [Hck Hasc]. unfold call_event at 1.
    rewrite (step_Call_pending_no_maxWait _ _ _ _ h) by assumption.
    set (w1 := note_call (call_time c) (call_this c) (call_args c) w).
    assert (H1 : timer w1 = Some h /\ tasks w1 = tasks w /\
                 executions w1 = executions w /\
                 result w1 = result w /\ clock w1 = call_time c).
    { subst w1. destruct w; cbn in *; subst. repeat split. }
    destruct H1 as (Ht1 & Htk1 & Hex1 & Hrs1 & Hck1).
    destruct (IH w1 h c Hm Ht1 Hck1) as (w' & Hrun & E1 & E2 & E3 & E4 & E5);
      [ now rewrite Hck1 | ].
    exists w'. rewrite last_cons_default. repeat split; congruence.
Qed.

Lemma step_Call_leading_returns w t this args r :
  timer w = None -> tasks w = [] -> lastInvokeTime w = 0 ->
  leading cfg = true -> clock w <= t ->
  snd (fn this (Some args) (env w)) = Normal r ->
  exists w1,
    step fn cfg w (Call t this args) = Some w1 /\
    timer w1 = Some (next_handle w) /\
    tasks w1 = [(next_handle w, t + Z.max 0 (wait cfg))] /\
    executions w1 = executions w ++ [mkExecution t this (Some args)] /\
    result w1 = Some r /\ lastArgs w1 = None /\ clock w1 = t.
Proof.
  intros Ht Htk Hli Hl Hck Hfn. rewrite step_Call by assumption.
  rewrite debounced_leading;
    [ | destruct w; assumption
      | destruct w; cbn in *; unfold shouldInvoke; cbn; now rewrite Hli
      | assumption ].
  destruct w as [tm la lt lc li rs ck nh tk en ex]; cbn in *; subst.
  destruct (fn this (Some args) en) as [env' [r' | x]]; cbn in *;
    [ | discriminate ].
  injection Hfn as ->. eexists; split; [ reflexivity | ]. repeat split.
Qed.

(** X13.  Leading edge only ([leading = true], [trailing = false], no
    [maxWait]): on a controller whose [lastInvokeTime] is the sentinel and
    that has no window open, a burst of calls followed by the timer of
    the window executes the action exactly once, at the first call and
    with the first call's receiver and arguments (the action returning
    normally); the later calls of the burst and the timer execute
    nothing. *)
Theorem leading_only_burst :
  forall w (c1 : call) (rest : list call) tf r,
    leading cfg = true -> trailing cfg = false -> maxWait cfg = None ->
    idle w -> lastInvokeTime w = 0 ->
    snd (fn (call_this c1) (Some (call_args c1)) (env w)) = Normal r ->
    ascending (clock w) (map call_time (c1 :: rest)) ->
    call_time c1 + Z.max 0 (wait cfg) <= tf ->
    call_time (last rest c1) <= tf ->
    exists w2,
      run fn cfg w
          (map call_event (c1 :: rest) ++ [TimerFires tf (next_handle w)])
        = Some w2 /\
      executions w2 =
        executions w ++
        [mkExecution (call_time c1) (call_this c1) (Some (call_args c1))] /\
      idle w2 /\ lastArgs w2 = None /\ result w2 = Some r.
Proof.
  intros w c1 rest tf r Hl Htr Hm [Ht Htk] Hli Hfn [Hck Hasc] Hdue Hlast.
  destruct (step_Call_leading_returns w (call_time c1) (call_this c1)
              (call_args c1) r Ht Htk Hli Hl Hck Hfn)
    as (w0 & Hstep & Ht0 & Htk0 & Hex0 & Hrs0 & Hla0 & Hck0).
  destruct (run_calls_keep_window rest w0 (next_handle w) c1 Hm Ht0 Hck0)
    as (w1 & Hrun & Ht1 & Htk1 & Hex1 & Hrs1 & Hck1);
    [ now rewrite Hck0 | ].
  rewrite run_app. cbn [map run]. unfold call_event at 1.
  rewrite Hstep, Hrun. cbn [run].
  destruct w1 as [tm la lt lc li rs ck nh tk en ex]; cbn in *; subst.
  unfold step, advance, is_due; cbn.
  rewrite (proj2 (Z.leb_le _ _) Hlast); cbn.
  rewrite Htk0; cbn.
  rewrite Nat.eqb_refl, (proj2 (Z.leb_le _ _) Hdue); cbn.
  eexists; split; [ reflexivity | ].
  clear Hstep Hrun. unfold_js. rewrite Htr. cbn. rewrite Hex0.
  repeat split; assumption.
Qed.


(** **** When an operation executes *)

Lemma app_one_neq {A} (l : list A) (x : A) : l ++ [x] <> l.
Proof.
  intros H. apply (f_equal (@List.length A)) in H.
  rewrite length_app in H. cbn in H. lia.
Qed.

(** X15.  A proxy call runs the action itself exactly when it is forced,
    finds no timer, and [leading] is set; it then runs it once, now, on
    its own receiver and arguments.  In every other case the call executes
    nothing. *)
Theorem proxy_call_executes_iff_leading_edge :
  forall w this args,
    let w' := fst (debounced fn cfg this args w) in
    (executions w' <> executions w <->
     timer w = None /\ leading cfg = true /\
     shouldInvoke cfg (clock w) w = true) /\
    (executions w' = executions w \/
     executions w' =
       executions w ++ [mkExecution (clock w) this (Some args)]).
Proof.
  intros w this args.
  destruct w as [tm la lt lc li rs ck nh tk en ex].
  unfold_js. cbn.
  destruct tm as [h0 |]; js_split; (split; [ split | ]); auto;
    try (intros H; exfalso; apply H; reflexivity);
    try (intros (H1 & H2 & H3); discriminate);
    try (intros _; apply app_one_neq).
Qed.


End Properties.

(** ** The claims on concrete runs *)

Example pending_state :
  timer Demo.pending = Some O /\
  tasks Demo.pending = [(O, 3000)] /\
  lastArgs Demo.pending = Some "Jerry"%string /\
  lastInvokeTime Demo.pending = 1000 /\
  clock Demo.pending = 1500 /\
  result Demo.pending = Some 1%nat /\
  env Demo.pending = ["Tom"%string].
Proof. repeat split. Qed.

(** The run of the source's own example: four executions, for "Tom" on
    the leading edge, for "Jerry" and "Lucy" when the timers of their
    windows fire, and for "Alice" at the [flush()]. *)
Example source_example_run :
  exists w,
    run Demo.record_name Demo.example_cfg (initial 50000 [])
        Demo.source_example = Some w /\
    executions w =
      [mkExecution 50000 Demo.me (Some "Tom"%string);
       mkExecution 52000 Demo.me (Some "Jerry"%string);
       mkExecution 55000 Demo.me (Some "Lucy"%string);
       mkExecution 56000 Demo.me (Some "Alice"%string)] /\
    idle w /\ lastInvokeTime w = 0.
Proof.
  eexists. split; [ vm_compute; reflexivity | ].
  repeat split.
Qed.


(** C2.  [debounce(fn, 2000, { leading: true, maxWait: 3000 })] and a
    caller whose calls are never 2000 apart.  The action runs at 1000
    (leading edge) and at 3000 (timer).  The calls at 6000, 7900 and 9800
    come 3000 or more after that execution: each finds the timer
    outstanding, is forced, and only replaces the timer.  At 9800 the last
    execution is 6800 in the past, more than twice [maxWait], and the only
    task of the host is due at 11800. *)
Theorem C2_maxWait_does_not_force_execution :
  exists w,
    run Demo.record_name Demo.maxwait_cfg Demo.start Demo.busy_caller
      = Some w /\
    wait Demo.maxwait_cfg = 2000 /\
    maxWait Demo.maxwait_cfg = Some 3000 /\
    executions w =
      [mkExecution 1000 Demo.me (Some "Tom"%string);
       mkExecution 3000 Demo.me (Some "Jerry"%string)] /\
    lastInvokeTime w = 3000 /\
    clock w = 9800 /\
    clock w - lastInvokeTime w > 2 * 3000 /\
    tasks w = [(4%nat, 11800)] /\
    map (fun w => (clock w, tasks w, List.length (executions w)))
        (history Demo.record_name Demo.maxwait_cfg Demo.start
           Demo.busy_caller)
    = [ (1000, [(0%nat, 3000)], 1%nat);
        (2800, [(0%nat, 3000)], 1%nat);
        (3000, [], 2%nat);
        (4700, [(1%nat, 6700)], 2%nat);
        (6000, [(2%nat, 8000)], 2%nat);
        (7900, [(3%nat, 9900)], 2%nat);
        (9800, [(4%nat, 11800)], 2%nat) ].
Proof.
  eexists. split; [ vm_compute; reflexivity | ].
  repeat split.
Qed.

(** The same caller going on for ever: after the call at 6000 every
    further call is forced and finds a timer, so no list of further calls
    leads to an execution. *)
Lemma busy_caller_starves :
  forall w (cs : list (@call unit string)),
    run Demo.record_name Demo.maxwait_cfg Demo.start Demo.busy_caller
      = Some w ->
    ascending (clock w) (map call_time cs) ->
    exists w',
      run Demo.record_name Demo.maxwait_cfg w (map call_event cs) = Some w' /\
      executions w' = executions w.
Proof.
  intros w cs Hrun Hasc.
  vm_compute in Hrun. injection Hrun as <-.
  match type of Hasc with
  | ascending (clock ?w0) _ =>
      assert (Hforced : lastInvokeTime w0 = 0 \/
                        3000 <= clock w0 - lastInvokeTime w0)
        by (right; cbn; lia);
      destruct (forced_calls_only_postpone Demo.record_name Demo.maxwait_cfg
                  cs w0 4%nat 11800 3000 eq_refl eq_refl eq_refl
                  Hforced Hasc)
        as (w' & h' & d' & Hrun' & Hex & _)
  end.
  exists w'. split; assumption.
Qed.

(** C3 fails as stated: one call with [leading] and [trailing] both set,
    then the timer of its window, is one execution, not two. *)
Lemma C3_counterexample_one_execution :
  exists w,
    run Demo.record_name Demo.example_cfg Demo.start Demo.single_call
      = Some w /\
    leading Demo.example_cfg = true /\
    trailing Demo.example_cfg = true /\
    executions w = [mkExecution 1000 Demo.me (Some "Tom"%string)] /\
    List.length (executions w) <> 2%nat.
Proof.
  eexists. split; [ vm_compute; reflexivity | ].
  repeat split. discriminate.
Qed.

Lemma C3_witness :
  leading Demo.example_cfg = true /\
  trailing Demo.example_cfg = true /\
  0 <= 1000 /\
  exists w1,
    step Demo.record_name Demo.example_cfg (initial 0 [])
         (Call 1000 Demo.me "Tom"%string) = Some w1 /\
    executions w1 = [mkExecution 1000 Demo.me (Some "Tom"%string)] /\
    (forall tf h w2,
        step Demo.record_name Demo.example_cfg w1 (TimerFires tf h)
          = Some w2 ->
        executions w2 = executions w1 /\ idle w2) /\
    (forall r tf,
        snd (Demo.record_name Demo.me (Some "Tom"%string) []) = Normal r ->
        1000 + Z.max 0 (wait Demo.example_cfg) <= tf ->
        exists w2,
          step Demo.record_name Demo.example_cfg w1 (TimerFires tf O)
            = Some w2).
Proof.
  assert (H1 : leading Demo.example_cfg = true) by reflexivity.
  assert (H2 : trailing Demo.example_cfg = true) by reflexivity.
  assert (H3 : 0 <= 1000) by lia.
  repeat (split; [ assumption | ]).
  exact (C3_single_call_executes_once Demo.record_name Demo.example_cfg
           0 [] 1000 Demo.me "Tom"%string H1 H2 H3).
Defined.

(** C4 fails as stated: with nothing pending, [cancel()] is not a no-op.
    After a leading execution at 1000 and the timer at 3000 nothing is
    pending, yet [cancel()] changes the state, and visibly so: the call at
    4000 executes at once after [cancel()] and does not without it. *)
Lemma C4_counterexample_cancel_is_not_a_no_op :
  exists w,
    run Demo.record_name Demo.leading_cfg Demo.start Demo.single_call
      = Some w /\
    idle w /\ lastArgs w = None /\ lastThis w = None /\
    fst (cancel (Exn := unit) w) <> w /\
    exists w1 w2,
      run Demo.record_name Demo.leading_cfg w
          [Call 4000 Demo.me "Alice"%string] = Some w1 /\
      run Demo.record_name Demo.leading_cfg w
          [Cancel 3500; Call 4000 Demo.me "Alice"%string] = Some w2 /\
      List.length (executions w1) = 1%nat /\
      List.length (executions w2) = 2%nat.
Proof.
  eexists. split; [ vm_compute; reflexivity | ].
  split; [ split; reflexivity | ].
  split; [ reflexivity | ]. split; [ reflexivity | ].
  split.
  - intros H. apply (f_equal lastInvokeTime) in H. discriminate H.
  - eexists. eexists.
    split; [ vm_compute; reflexivity | ].
    split; [ vm_compute; reflexivity | ].
    split; reflexivity.
Qed.

Lemma C4_witness :
  timer_inv Demo.pending /\
  exists w',
    cancel Demo.pending = (w', Normal (Exn := unit) tt) /\
    idle w' /\ lastArgs w' = None /\ lastThis w' = None /\
    lastInvokeTime w' = 0 /\
    executions w' = executions Demo.pending /\
    (forall t h,
        step Demo.record_name Demo.leading_cfg w' (TimerFires t h) = None) /\
    (forall t this args,
        clock w' <= t ->
        shouldInvoke Demo.leading_cfg t w' = true /\
        (leading Demo.leading_cfg = true ->
         exists w'',
           step Demo.record_name Demo.leading_cfg w' (Call t this args)
             = Some w'' /\
           executions w'' =
             executions w' ++ [mkExecution t this (Some args)])) /\
    cancel w' = (w', Normal (Exn := unit) tt) /\
    (timer Demo.pending = None -> lastArgs Demo.pending = None ->
     lastThis Demo.pending = None ->
     w' = set_lastInvokeTime 0 Demo.pending /\
     (lastInvokeTime Demo.pending = 0 -> w' = Demo.pending)).
Proof.
  assert (H : timer_inv Demo.pending) by (exists 3000; reflexivity).
  split; [ assumption | ].
  exact (C4_cancel Demo.record_name Demo.leading_cfg Demo.pending H).
Defined.

(** C5 on the pending state: the first [flush()] executes "Jerry" and
    returns the action's result, the second executes nothing and returns
    that same result. *)
Lemma C5_witness :
  timer Demo.pending = Some O /\
  trailing Demo.leading_cfg = true /\
  lastArgs Demo.pending = Some "Jerry"%string /\
  snd (Demo.record_name (lastThis Demo.pending) (Some "Jerry"%string)
         (env Demo.pending)) = Normal 2%nat /\
  snd (flush Demo.record_name Demo.leading_cfg Demo.pending)
    = Normal (Some 2%nat) /\
  executions (fst (flush Demo.record_name Demo.leading_cfg Demo.pending)) =
    executions Demo.pending ++
    [mkExecution 1500 Demo.me (Some "Jerry"%string)] /\
  flush Demo.record_name Demo.leading_cfg
    (fst (flush Demo.record_name Demo.leading_cfg Demo.pending)) =
    (fst (flush Demo.record_name Demo.leading_cfg Demo.pending),
     Normal
       (result (fst (flush Demo.record_name Demo.leading_cfg Demo.pending)))).
Proof.
  assert (H1 : timer Demo.pending = Some O) by reflexivity.
  assert (H2 : trailing Demo.leading_cfg = true) by reflexivity.
  assert (H3 : lastArgs Demo.pending = Some "Jerry"%string) by reflexivity.
  assert (H4 : snd (Demo.record_name (lastThis Demo.pending)
                      (Some "Jerry"%string) (env Demo.pending))
               = Normal 2%nat) by reflexivity.
  repeat (split; [ assumption | ]).
  destruct (C5_flush Demo.record_name Demo.leading_cfg Demo.pending)
    as (Hout & _ & Htwice).
  destruct (Hout O H1) as (_ & _ & _ & Hexec & _).
  destruct (Hexec "Jerry"%string H2 H3) as (Hlog & Hret).
  destruct (Hret 2%nat H4) as (Hsnd & _).
  split; [ exact Hsnd | ]. split; [ exact Hlog | exact Htwice ].
Defined.

Lemma C6_witness :
  exists w,
    run Demo.record_name Demo.maxwait_cfg (initial 0 []) Demo.busy_caller
      = Some w /\
    (List.length (tasks w) <= 1)%nat /\ timer_inv w.
Proof.
  eexists. split; [ vm_compute; reflexivity | ].
  apply (C6_at_most_one_timer Demo.record_name Demo.maxwait_cfg 0 []
           Demo.busy_caller).
  vm_compute. reflexivity.
Defined.

(** C7 fails as stated: [cancel()] lowers [lastInvokeTime]. *)
Lemma C7_counterexample_cancel_lowers_lastInvokeTime :
  exists w w',
    run Demo.record_name Demo.leading_cfg Demo.start
        [Call 1000 Demo.me "Tom"%string] = Some w /\
    step Demo.record_name Demo.leading_cfg w (Cancel 1500) = Some w' /\
    lastInvokeTime w = 1000 /\ lastInvokeTime w' = 0 /\
    lastInvokeTime w' < lastInvokeTime w.
Proof.
  eexists. eexists.
  split; [ vm_compute; reflexivity | ].
  split; [ vm_compute; reflexivity | ].
  repeat split.
Qed.

Lemma C7_witness :
  0 <= 0 /\
  run Demo.record_name Demo.leading_cfg (initial 0 [])
      [Call 1000 Demo.me "Tom"%string; Call 1500 Demo.me "Jerry"%string]
    = Some Demo.pending /\
  exists w',
    step Demo.record_name Demo.leading_cfg Demo.pending (TimerFires 3000 O)
      = Some w' /\
    lastInvokeTime Demo.pending = 1000 /\
    lastInvokeTime w' = 3000 /\
    (is_cancel (TimerFires (This := unit) (Args := string) 3000 O) = false ->
     lastInvokeTime Demo.pending <= lastInvokeTime w') /\
    (is_cancel (TimerFires (This := unit) (Args := string) 3000 O) = true ->
     lastInvokeTime w' = 0 /\
     lastInvokeTime w' <= lastInvokeTime Demo.pending).
Proof.
  assert (H1 : 0 <= 0) by lia.
  assert (H2 : run Demo.record_name Demo.leading_cfg (initial 0 [])
                 [Call 1000 Demo.me "Tom"%string;
                  Call 1500 Demo.me "Jerry"%string]
               = Some Demo.pending) by reflexivity.
  split; [ assumption | ]. split; [ assumption | ].
  eexists. split; [ vm_compute; reflexivity | ].
  split; [ reflexivity | ]. split; [ reflexivity | ].
  apply (C7_lastInvokeTime_monotone_except_cancel Demo.record_name
           Demo.leading_cfg 0 [] _ Demo.pending (TimerFires 3000 O) _ H1 H2).
  vm_compute. reflexivity.
Defined.

Lemma C8_witness :
  timer Demo.pending = Some O /\
  lastInvokeTime Demo.pending <> 0 /\
  (forall m, maxWait Demo.leading_cfg = Some m ->
             2000 - lastInvokeTime Demo.pending < m) /\
  clock Demo.pending <= 2000 /\
  step Demo.record_name Demo.leading_cfg Demo.pending
       (Call 2000 Demo.me "Lucy"%string)
    = Some (note_call 2000 Demo.me "Lucy"%string Demo.pending) /\
  tasks (note_call 2000 Demo.me "Lucy"%string Demo.pending)
    = tasks Demo.pending /\
  executions (note_call 2000 Demo.me "Lucy"%string Demo.pending)
    = executions Demo.pending.
Proof.
  assert (H1 : timer Demo.pending = Some O) by reflexivity.
  assert (H2 : lastInvokeTime Demo.pending <> 0) by discriminate.
  assert (H3 : forall m, maxWait Demo.leading_cfg = Some m ->
                         2000 - lastInvokeTime Demo.pending < m)
    by discriminate.
  assert (H4 : clock Demo.pending <= 2000) by (cbn; lia).
  repeat (split; [ assumption | ]).
  destruct (C8_unforced_call_only_records Demo.record_name Demo.leading_cfg
              Demo.pending 2000 Demo.me "Lucy"%string O H1 H2 H3 H4)
    as (_ & Hstep & _ & Htasks & Hex & _).
  split; [ exact Hstep | ]. split; [ exact Htasks | exact Hex ].
Defined.

(** The code misses C9: when the action throws on the leading edge, the
    pending arguments and receiver are still there afterwards. *)
Lemma C9_counterexample_throw_leaves_arguments :
  exists w',
    debounced Demo.failing Demo.leading_cfg Demo.me "Tom"%string
      (set_clock 1000 Demo.start) = (w', Throw tt) /\
    lastArgs w' = Some "Tom"%string /\
    lastThis w' = Demo.me /\
    ~ (lastArgs w' = None /\ lastThis w' = None).
Proof.
  eexists. split; [ vm_compute; reflexivity | ].
  split; [ reflexivity | ]. split; [ reflexivity | ].
  intros [H _]. discriminate H.
Qed.

Lemma C9_witness :
  timer_inv (set_clock 1000 Demo.start) /\
  timer (set_clock 1000 Demo.start) = None /\
  shouldInvoke Demo.leading_cfg (clock (set_clock 1000 Demo.start))
    (set_clock 1000 Demo.start) = true /\
  leading Demo.leading_cfg = true /\
  Demo.failing Demo.me (Some "Tom"%string) (env (set_clock 1000 Demo.start))
    = ([], Throw tt) /\
  exists w',
    debounced Demo.failing Demo.leading_cfg Demo.me "Tom"%string
      (set_clock 1000 Demo.start) = (w', Throw tt) /\
    lastArgs w' = Some "Tom"%string /\
    lastInvokeTime w' = 1000 /\
    idle w'.
Proof.
  assert (H0 : timer_inv (set_clock 1000 Demo.start)) by reflexivity.
  assert (H1 : timer (set_clock 1000 Demo.start) = None) by reflexivity.
  assert (H2 : shouldInvoke Demo.leading_cfg
                 (clock (set_clock 1000 Demo.start))
                 (set_clock 1000 Demo.start) = true) by reflexivity.
  assert (H3 : leading Demo.leading_cfg = true) by reflexivity.
  assert (H4 : Demo.failing Demo.me (Some "Tom"%string)
                 (env (set_clock 1000 Demo.start)) = ([], Throw tt))
    by reflexivity.
  repeat (split; [ assumption | ]).
  destruct (C9_throw_keeps_pending_data Demo.failing Demo.leading_cfg
              (set_clock 1000 Demo.start) tt [] H0) as [Hlead _].
  destruct (Hlead Demo.me "Tom"%string H1 H2 H3 H4)
    as (w' & Hd & Hla & _ & Hli & _ & Hidle & _).
  exists w'. repeat split; try assumption; apply Hidle.
Defined.

(** C10 fails as stated: not every later proxy call is forced.  After an
    execution at clock time 0, a call at 100 and the timer at 2000 execute
    the action at 2000; [lastInvokeTime] is then 2000 and a call at 2500 is
    not forced, without [maxWait] or with [maxWait = 5000]. *)
Lemma C10_counterexample_later_call_not_forced :
  exists w0 w,
    step Demo.record_name Demo.leading_cfg Demo.start
         (Call 0 Demo.me "Tom"%string) = Some w0 /\
    executions w0 <> executions Demo.start /\
    lastInvokeTime w0 = 0 /\
    run Demo.record_name Demo.leading_cfg w0
        [Call 100 Demo.me "Jerry"%string; TimerFires 2000 O] = Some w /\
    lastInvokeTime w = 2000 /\
    shouldInvoke Demo.leading_cfg 2500 w = false /\
    shouldInvoke Demo.example_cfg 2500 w = false /\
    ~ (forall cfg' now, shouldInvoke cfg' now w = true).
Proof.
  eexists. eexists.
  split; [ vm_compute; reflexivity | ].
  split; [ discriminate | ].
  split; [ reflexivity | ].
  split; [ vm_compute; reflexivity | ].
  split; [ reflexivity | ].
  split; [ reflexivity | ].
  split; [ reflexivity | ].
  intros H. specialize (H Demo.leading_cfg 2500). discriminate H.
Qed.

(** C10 on a controller constructed, called and executed at clock time 0. *)
Lemma C10_witness :
  event_time (Call 0 Demo.me "Tom"%string) = 0 /\
  exists w',
    step Demo.record_name Demo.leading_cfg Demo.start
         (Call 0 Demo.me "Tom"%string) = Some w' /\
    executions w' <> executions Demo.start /\
    lastInvokeTime w' = 0 /\
    (forall cfg' now, shouldInvoke cfg' now w' = true).
Proof.
  split; [ reflexivity | ].
  eexists. split; [ vm_compute; reflexivity | ].
  split; [ discriminate | ].
  match goal with
  | |- lastInvokeTime ?w1 = 0 /\ _ =>
      destruct (C10_execution_at_time_zero_looks_fresh Demo.record_name
                  Demo.leading_cfg Demo.start (Call 0 Demo.me "Tom"%string)
                  w1 eq_refl eq_refl ltac:(discriminate))
        as (Hli & _ & Hforced & _)
  end.
  split; [ exact Hli | exact Hforced ].
Defined.

(** ** The further properties on concrete runs *)

Lemma X1_witness :
  run Demo.record_name Demo.leading_cfg (initial 0 [])
      [Call 1000 Demo.me "Tom"%string; Call 1500 Demo.me "Jerry"%string]
    = Some Demo.pending /\
  exists w',
    step Demo.record_name Demo.leading_cfg Demo.pending (TimerFires 3000 O)
      = Some w' /\
    executions w' <> executions Demo.pending /\
    exists c0,
      latest_call None
        ([Call 1000 Demo.me "Tom"%string; Call 1500 Demo.me "Jerry"%string]
         ++ [TimerFires 3000 O]) = Some c0 /\
      executions w' =
        executions Demo.pending ++
        [mkExecution (event_time (TimerFires (This := unit) (Args := string)
                                    3000 O))
           (call_this c0) (Some (call_args c0))].
Proof.
  assert (H1 : run Demo.record_name Demo.leading_cfg (initial 0 [])
                 [Call 1000 Demo.me "Tom"%string;
                  Call 1500 Demo.me "Jerry"%string]
               = Some Demo.pending) by reflexivity.
  split; [ assumption | ].
  eexists. split; [ vm_compute; reflexivity | ].
  split; [ discriminate | ].
  apply (execution_uses_latest_call Demo.record_name Demo.leading_cfg
           0 [] _ Demo.pending (TimerFires 3000 O) _ H1).
  - vm_compute. reflexivity.
  - discriminate.
Defined.

Lemma X2_witness :
  run Demo.record_name Demo.leading_cfg (initial 0 [])
      [Call 1000 Demo.me "Tom"%string; Call 1500 Demo.me "Jerry"%string]
    = Some Demo.pending /\
  lastCallTime Demo.pending = Some 1500 /\
  lastArgs Demo.pending = Some "Jerry"%string /\
  lastCallTime Demo.pending =
    option_map call_time
      (latest_call None
         [Call 1000 Demo.me "Tom"%string; Call 1500 Demo.me "Jerry"%string]).
Proof.
  assert (H1 : run Demo.record_name Demo.leading_cfg (initial 0 [])
                 [Call 1000 Demo.me "Tom"%string;
                  Call 1500 Demo.me "Jerry"%string]
               = Some Demo.pending) by reflexivity.
  split; [ assumption | ].
  split; [ reflexivity | ]. split; [ reflexivity | ].
  exact (proj1 (closure_records_latest_call Demo.record_name Demo.leading_cfg
                  0 [] _ Demo.pending H1)).
Defined.

Lemma X3_witness :
  exists w,
    run Demo.record_name Demo.maxwait_cfg (initial 0 []) Demo.busy_caller
      = Some w /\
    count_calls Demo.busy_caller = 6%nat /\
    (List.length (executions w) + owed w <= count_calls Demo.busy_caller)%nat.
Proof.
  eexists. split; [ vm_compute; reflexivity | ].
  split; [ reflexivity | ].
  apply (executions_at_most_calls Demo.record_name Demo.maxwait_cfg 0 []
           Demo.busy_caller).
  vm_compute. reflexivity.
Defined.

Lemma X4_witness :
  exists w,
    run Demo.record_name Demo.maxwait_cfg (initial 0 []) Demo.busy_caller
      = Some w /\
    lastInvokeTime w = 3000 /\
    (lastInvokeTime w = 0 \/
     exists l x, executions w = l ++ [x] /\ exec_time x = lastInvokeTime w) /\
    Forall (fun x => exec_time x <= clock w) (executions w).
Proof.
  eexists. split; [ vm_compute; reflexivity | ].
  split; [ reflexivity | ].
  apply (lastInvokeTime_is_last_execution Demo.record_name Demo.maxwait_cfg
           0 [] Demo.busy_caller).
  vm_compute. reflexivity.
Defined.

Lemma X5_witness :
  exists w',
    step Demo.record_name Demo.leading_cfg Demo.pending (Flush 2000)
      = Some w' /\
    result w' = Some 2%nat /\
    ((executions w' = executions Demo.pending /\
      result w' = result Demo.pending /\ env w' = env Demo.pending) \/
     (exists this args,
         executions w' =
           executions Demo.pending ++
           [mkExecution (event_time (Flush (This := unit) (Args := string)
                                       2000)) this args] /\
         env w' = fst (Demo.record_name this args (env Demo.pending)) /\
         match snd (Demo.record_name this args (env Demo.pending)) with
         | Normal r =>
             result w' = Some r /\ lastArgs w' = None /\ lastThis w' = None
         | Throw _ => result w' = result Demo.pending /\ lastArgs w' = args
         end)).
Proof.
  eexists. split; [ vm_compute; reflexivity | ].
  split; [ reflexivity | ].
  apply (result_follows_executions Demo.record_name Demo.leading_cfg
           Demo.pending (Flush 2000)).
  vm_compute. reflexivity.
Defined.

Lemma X6_witness :
  exists w',
    debounced Demo.failing Demo.leading_cfg Demo.me "Tom"%string
      (set_clock 1000 Demo.start) = (w', Throw tt) /\
    timer (set_clock 1000 Demo.start) = None /\
    leading Demo.leading_cfg = true /\
    shouldInvoke Demo.leading_cfg (clock (set_clock 1000 Demo.start))
      (set_clock 1000 Demo.start) = true /\
    snd (Demo.failing Demo.me (Some "Tom"%string)
           (env (set_clock 1000 Demo.start))) = Throw tt.
Proof.
  eexists. split; [ vm_compute; reflexivity | ].
  eapply (proxy_call_outcome Demo.failing Demo.leading_cfg
            (set_clock 1000 Demo.start) Demo.me "Tom"%string _ (Throw tt)).
  vm_compute. reflexivity.
Defined.

Lemma X7_witness :
  leading Demo.silent_cfg = false /\
  trailing Demo.silent_cfg = false /\
  exists w',
    run Demo.record_name Demo.silent_cfg Demo.start Demo.mixed_events
      = Some w' /\
    executions w' = executions Demo.start /\
    result w' = result Demo.start /\
    env w' = env Demo.start /\
    snd (flush Demo.record_name Demo.silent_cfg w')
      = Normal (result Demo.start).
Proof.
  assert (H1 : leading Demo.silent_cfg = false) by reflexivity.
  assert (H2 : trailing Demo.silent_cfg = false) by reflexivity.
  split; [ assumption | ]. split; [ assumption | ].
  eexists. split; [ vm_compute; reflexivity | ].
  apply (degenerate_configuration_never_executes Demo.record_name
           Demo.silent_cfg Demo.start Demo.mixed_events _ H1 H2).
  vm_compute. reflexivity.
Defined.

Lemma X8_witness :
  maxWait Demo.leading_cfg = None /\
  lastInvokeTime Demo.pending <> 0 /\
  exists w',
    debounced Demo.record_name Demo.leading_cfg Demo.me "Lucy"%string
      Demo.pending = (w', Normal (result Demo.pending)) /\
    executions w' = executions Demo.pending /\
    env w' = env Demo.pending /\
    result w' = result Demo.pending /\
    lastInvokeTime w' = lastInvokeTime Demo.pending /\
    lastArgs w' = Some "Lucy"%string /\ lastThis w' = Demo.me /\
    timer w' <> None.
Proof.
  assert (H1 : maxWait Demo.leading_cfg = None) by reflexivity.
  assert (H2 : lastInvokeTime Demo.pending <> 0) by discriminate.
  split; [ assumption | ]. split; [ assumption | ].
  exact (leading_edge_only_from_sentinel Demo.record_name Demo.leading_cfg
           Demo.pending Demo.me "Lucy"%string H1 H2).
Defined.

Lemma X9_witness :
  maxWait Demo.leading_cfg = None /\
  timer Demo.pending = Some O /\
  ascending (clock Demo.pending) (map call_time Demo.burst) /\
  exists w',
    run Demo.record_name Demo.leading_cfg Demo.pending
        (map call_event Demo.burst) = Some w' /\
    timer w' = Some O /\ tasks w' = tasks Demo.pending /\
    executions w' = executions Demo.pending /\
    lastInvokeTime w' = lastInvokeTime Demo.pending /\
    result w' = result Demo.pending.
Proof.
  assert (H1 : maxWait Demo.leading_cfg = None) by reflexivity.
  assert (H2 : timer Demo.pending = Some O) by reflexivity.
  assert (H3 : ascending (clock Demo.pending) (map call_time Demo.burst))
    by (cbn; lia).
  repeat (split; [ assumption | ]).
  exact (calls_do_not_extend_window_without_maxWait Demo.record_name
           Demo.leading_cfg Demo.burst Demo.pending O H1 H2 H3).
Defined.

Lemma X10_witness :
  maxWait Demo.maxwait_only_cfg = Some 5000 /\
  timer Demo.waiting = Some O /\
  tasks Demo.waiting = [(O, 3000)] /\
  (lastInvokeTime Demo.waiting = 0 \/
   5000 <= clock Demo.waiting - lastInvokeTime Demo.waiting) /\
  ascending (clock Demo.waiting) (map call_time Demo.burst) /\
  List.length (history Demo.record_name Demo.maxwait_only_cfg Demo.waiting
                 (map call_event Demo.burst)) = List.length Demo.burst /\
  Forall (fun w1 =>
            executions w1 = executions Demo.waiting /\
            exists h1, timer w1 = Some h1 /\
                       tasks w1 =
                         [(h1, clock w1
                               + Z.max 0 (wait Demo.maxwait_only_cfg))])
         (history Demo.record_name Demo.maxwait_only_cfg Demo.waiting
            (map call_event Demo.burst)).
Proof.
  assert (H1 : maxWait Demo.maxwait_only_cfg = Some 5000) by reflexivity.
  assert (H2 : timer Demo.waiting = Some O) by reflexivity.
  assert (H3 : tasks Demo.waiting = [(O, 3000)]) by reflexivity.
  assert (H4 : lastInvokeTime Demo.waiting = 0 \/
               5000 <= clock Demo.waiting - lastInvokeTime Demo.waiting)
    by (left; reflexivity).
  assert (H5 : ascending (clock Demo.waiting) (map call_time Demo.burst))
    by (cbn; lia).
  repeat (split; [ assumption | ]).
  exact (forced_calls_restart_timer Demo.record_name Demo.maxwait_only_cfg
           Demo.burst Demo.waiting O 3000 5000 H1 H2 H3 H4 H5).
Defined.

Lemma X11_witness :
  timer_inv Demo.pending /\
  exists w',
    step Demo.record_name Demo.leading_cfg Demo.pending (TimerFires 3000 O)
      = Some w' /\
    idle w' /\
    (forall t h',
        step Demo.record_name Demo.leading_cfg w' (TimerFires t h') = None) /\
    (forall t h,
        step Demo.record_name Demo.leading_cfg
             (fst (flush Demo.record_name Demo.leading_cfg Demo.pending))
             (TimerFires t h) = None).
Proof.
  assert (H : timer_inv Demo.pending) by (exists 3000; reflexivity).
  split; [ assumption | ].
  destruct (timer_runs_once_and_not_after_flush Demo.record_name
              Demo.leading_cfg Demo.pending H) as (Hfire & _ & Hflush).
  eexists. split; [ vm_compute; reflexivity | ].
  match goal with
  | |- idle ?w1 /\ _ =>
      destruct (Hfire 3000 O w1 ltac:(vm_compute; reflexivity))
        as (_ & Hidle & Hnone)
  end.
  split; [ exact Hidle | ]. split; [ exact Hnone | exact Hflush ].
Defined.

Lemma X12_witness :
  run Demo.record_name Demo.leading_cfg (initial 0 [])
      [Call 1000 Demo.me "Tom"%string; Call 1500 Demo.me "Jerry"%string]
    = Some Demo.pending /\
  clock Demo.pending <= 2000 /\
  exists w',
    debounced Demo.record_name Demo.leading_cfg Demo.me "Lucy"%string
      (set_clock 2000 Demo.pending) = (w', Normal (Some 1%nat)) /\
    exists h d,
      timer w' = Some h /\ tasks w' = [(h, d)] /\
      d <= 2000 + Z.max 0 (wait Demo.leading_cfg).
Proof.
  assert (H1 : run Demo.record_name Demo.leading_cfg (initial 0 [])
                 [Call 1000 Demo.me "Tom"%string;
                  Call 1500 Demo.me "Jerry"%string]
               = Some Demo.pending) by reflexivity.
  assert (H2 : clock Demo.pending <= 2000) by (cbn; lia).
  split; [ assumption | ]. split; [ assumption | ].
  eexists. split; [ vm_compute; reflexivity | ].
  apply (returned_call_leaves_timer Demo.record_name Demo.leading_cfg
           0 [] _ Demo.pending 2000 Demo.me "Lucy"%string _ (Some 1%nat)
           H1 H2).
  vm_compute. reflexivity.
Defined.

Lemma X13_witness :
  leading Demo.leading_only_cfg = true /\
  trailing Demo.leading_only_cfg = false /\
  maxWait Demo.leading_only_cfg = None /\
  idle Demo.start /\ lastInvokeTime Demo.start = 0 /\
  snd (Demo.record_name Demo.me (Some "Tom"%string) (env Demo.start))
    = Normal 1%nat /\
  ascending (clock Demo.start)
    (map call_time ((1000, Demo.me, "Tom"%string) :: Demo.burst)) /\
  1000 + Z.max 0 (wait Demo.leading_only_cfg) <= 3000 /\
  call_time (last Demo.burst (1000, Demo.me, "Tom"%string)) <= 3000 /\
  exists w2,
    run Demo.record_name Demo.leading_only_cfg Demo.start
        (map call_event ((1000, Demo.me, "Tom"%string) :: Demo.burst)
         ++ [TimerFires 3000 (next_handle Demo.start)])
      = Some w2 /\
    executions w2 =
      executions Demo.start ++
      [mkExecution 1000 Demo.me (Some "Tom"%string)] /\
    idle w2 /\ lastArgs w2 = None /\ result w2 = Some 1%nat.
Proof.
  assert (H1 : leading Demo.leading_only_cfg = true) by reflexivity.
  assert (H2 : trailing Demo.leading_only_cfg = false) by reflexivity.
  assert (H3 : maxWait Demo.leading_only_cfg = None) by reflexivity.
  assert (H4 : idle Demo.start) by (split; reflexivity).
  assert (H5 : lastInvokeTime Demo.start = 0) by reflexivity.
  assert (H6 : snd (Demo.record_name Demo.me (Some "Tom"%string)
                      (env Demo.start)) = Normal 1%nat) by reflexivity.
  assert (H7 : ascending (clock Demo.start)
                 (map call_time ((1000, Demo.me, "Tom"%string) :: Demo.burst)))
    by (cbn; lia).
  assert (H8 : 1000 + Z.max 0 (wait Demo.leading_only_cfg) <= 3000)
    by (cbn; lia).
  assert (H9 : call_time (last Demo.burst (1000, Demo.me, "Tom"%string))
               <= 3000) by (cbn; lia).
  repeat (split; [ assumption | ]).
  exact (leading_only_burst Demo.record_name Demo.leading_only_cfg Demo.start
           (1000, Demo.me, "Tom"%string) Demo.burst 3000 1%nat
           H1 H2 H3 H4 H5 H6 H7 H8 H9).
Defined.



Lemma X15_witness :
  timer (set_clock 1000 Demo.start) = None /\
  leading Demo.leading_cfg = true /\
  shouldInvoke Demo.leading_cfg (clock (set_clock 1000 Demo.start))
    (set_clock 1000 Demo.start) = true /\
  executions
    (fst (debounced Demo.record_name Demo.leading_cfg Demo.me "Tom"%string
            (set_clock 1000 Demo.start)))
  <> executions (set_clock 1000 Demo.start).
Proof.
  assert (H1 : timer (set_clock 1000 Demo.start) = None) by reflexivity.
  assert (H2 : leading Demo.leading_cfg = true) by reflexivity.
  assert (H3 : shouldInvoke Demo.leading_cfg
                 (clock (set_clock 1000 Demo.start))
                 (set_clock 1000 Demo.start) = true) by reflexivity.
  repeat (split; [ assumption | ]).
  exact (proj2 (proj1 (proxy_call_executes_iff_leading_edge
                         Demo.record_name Demo.leading_cfg
                         (set_clock 1000 Demo.start) Demo.me "Tom"%string))
               (conj H1 (conj H2 H3))).
Defined.
